(** * A pluggable command shell: registry, plugin discovery and dispatch loop

    Shallow embedding of [app/commands/__inti__.py]: the [CommandHandler]
    registry, the start-up of [App.__init__], the plugin discovery of
    [App.load_plugins] and [App.register_plugin_commands], and the
    read/dispatch loop of [App.start].

    Python statements are embedded in a state-and-exception monad.  The state
    holds the registry dictionary, the plugins' own world, and one trace that
    interleaves log records, standard output and the calls made on the
    registry, in program order. *)

From Stdlib Require Import ZArith Ascii String List.
From stdpp Require Import gmap strings list.

Local Open Scope Z_scope.

(** ** Python strings

    A [str] is modelled by a [string] whose characters are the code points
    below 256.  [isspace] and [lower] follow the Unicode tables that
    [str.strip] and [str.lower] use, restricted to that range. *)

Definition isspace (c : ascii) : bool :=
  let n := Z.of_nat (nat_of_ascii c) in
  ((9 <=? n) && (n <=? 13)) || ((28 <=? n) && (n <=? 32))
  || (n =? 133) || (n =? 160).

Definition lower_char (c : ascii) : ascii :=
  let n := Z.of_nat (nat_of_ascii c) in
  if ((65 <=? n) && (n <=? 90)) || ((192 <=? n) && (n <=? 214))
     || ((216 <=? n) && (n <=? 222))
  then ascii_of_nat (Z.to_nat (n + 32))
  else c.

Fixpoint lower (s : string) : string :=
  match s with
  | EmptyString => EmptyString
  | String c rest => String (lower_char c) (lower rest)
  end.

Fixpoint lstrip (s : string) : string :=
  match s with
  | EmptyString => EmptyString
  | String c rest => if isspace c then lstrip rest else s
  end.

Fixpoint rstrip (s : string) : string :=
  match s with
  | EmptyString => EmptyString
  | String c rest =>
      match rstrip rest with
      | EmptyString => if isspace c then EmptyString else String c EmptyString
      | kept => String c kept
      end
  end.

Definition strip (s : string) : string := rstrip (lstrip s).

(** [str.replace] for a one-character pattern and replacement. *)
Fixpoint replace (old new : ascii) (s : string) : string :=
  match s with
  | EmptyString => EmptyString
  | String c rest =>
      String (if Ascii.eqb c old then new else c) (replace old new rest)
  end.

(** ** Exceptions and results *)

(** The exception classes the program names or can meet.  [OtherException]
    stands for an instance of any class outside the families listed before
    it (a [TypeError], a [RuntimeError], a plugin's own error class). *)
Inductive exn : Type :=
| KeyboardInterrupt
| SystemExit (code : Z)
| NameError (msg : string)
| EOFError (msg : string)
| ImportError (msg : string)
| ModuleNotFoundError (msg : string)
| SyntaxError (msg : string)
| OtherException (cls msg : string).

(** [except ImportError as e]: the clause selects the class and its built-in
    subclass; the result is [str(e)], which the handler writes to the log. *)
Definition import_error_message (e : exn) : option string :=
  match e with
  | ImportError msg | ModuleNotFoundError msg => Some msg
  | _ => None
  end.

Inductive result (A : Type) : Type :=
| Ok (a : A)
| Raise (e : exn).
Arguments Ok {A} a.
Arguments Raise {A} e.

Inductive level : Type := INFO | WARNING | ERROR.

(** What the terminal delivers to one [input()] call.  A stream that runs
    out makes [input] raise [EOFError]. *)
Inductive stdin_event : Type :=
| Line (text : string)
| Interrupt.

(** How the interpreter ends the process once [__main__] is left: status 0
    after a normal return, the low eight bits of the integer code of an
    uncaught [SystemExit] (a process status holds no more), and status 1
    with a traceback for any other uncaught exception, except that an
    uncaught [KeyboardInterrupt] ends the process through the interrupt
    signal, which a shell reports as 130. *)
Definition exit_status (r : result unit) : Z :=
  match r with
  | Ok _ => 0
  | Raise (SystemExit code) => Z.land code 255
  | Raise KeyboardInterrupt => 130
  | Raise _ => 1
  end.

Section Model.

(** The state that plugin code owns; the shell never inspects it. *)
Context {World : Type}.

(** A [Command] instance: [execute] takes no argument, works on the
    plugins' world only, and returns a text or raises. *)
Record Command : Type := {
  class_name : string;
  execute : World -> result string * World
}.

(** What a run leaves behind, in program order: the records handed to
    [logging], the prompt and the lines written to standard output, and the
    two calls the statements speak about, an entry into [execute_command]
    and a call of a command's [execute]. *)
Inductive event : Type :=
| EvLog (lvl : level) (msg : string)
| EvPrompt (text : string)
| EvPrint (text : string)
| EvDispatch (operation : string)
| EvExecute (c : Command).

Record state : Type := {
  commands : gmap string Command;
  world : World;
  trace : list event
}.

Definition M (A : Type) : Type := state -> result A * state.

Definition ret {A} (a : A) : M A := fun st => (Ok a, st).

Definition raise {A} (e : exn) : M A := fun st => (Raise e, st).

Definition bind {A B} (m : M A) (k : A -> M B) : M B :=
  fun st =>
    match m st with
    | (Ok a, st') => k a st'
    | (Raise e, st') => (Raise e, st')
    end.

Definition lift {A} (r : result A) : M A := fun st => (r, st).

(** [try: m  except <classes selected by h>: h e] *)
Definition try_except {A} (m : M A) (h : exn -> option (M A)) : M A :=
  fun st =>
    match m st with
    | (Ok a, st') => (Ok a, st')
    | (Raise e, st') =>
        match h e with
        | Some handler => handler st'
        | None => (Raise e, st')
        end
    end.

(** [try: m  finally: f] *)
Definition try_finally {A} (m : M A) (f : M unit) : M A :=
  fun st =>
    let (r, st') := m st in
    match f st' with
    | (Ok _, st'') => (r, st'')
    | (Raise e, st'') => (Raise e, st'')
    end.

Definition emit (ev : event) : M unit :=
  fun st => (Ok tt, {| commands := commands st; world := world st;
                       trace := trace st ++ [ev] |}).

Definition logging_info (msg : string) : M unit := emit (EvLog INFO msg).
Definition logging_warning (msg : string) : M unit := emit (EvLog WARNING msg).
Definition logging_error (msg : string) : M unit := emit (EvLog ERROR msg).
Definition print (text : string) : M unit := emit (EvPrint text).

End Model.

Arguments Command World : clear implicits.
Arguments event World : clear implicits.
Arguments state World : clear implicits.
Arguments M World A : clear implicits.

Declare Scope py_scope.
Delimit Scope py_scope with py.
Notation "x <- m ;; k" := (bind m (fun x => k))
  (at level 100, m at next level, right associativity) : py_scope.
Notation "m ;;; k" := (bind m (fun _ => k))
  (at level 100, right associativity) : py_scope.

Local Open Scope py_scope.

Section Registry.

Context {World : Type}.

(** ** class CommandHandler *)

(** [__init__]: [self.commands = {}] *)
Definition CommandHandler_init (w : World) : state World :=
  {| commands := ∅; world := w; trace := [] |}.

(** [self.commands[operation] = command] *)
Definition register_command (operation : string) (command : Command World)
  : M World unit :=
  fun st => (Ok tt, {| commands := <[operation := command]> (commands st);
                       world := world st; trace := trace st |}).

(** [self.commands.get(operation)] *)
Definition commands_get (operation : string) : M World (option (Command World)) :=
  fun st => (Ok (commands st !! operation), st).

(** [command.execute()]: the call is recorded, then the command runs on
    the plugins' world. *)
Definition call_execute (command : Command World) : M World string :=
  fun st =>
    let (r, w') := execute command (world st) in
    (r, {| commands := commands st; world := w';
           trace := trace st ++ [EvExecute command] |}).

Definition execute_command (operation : string) : M World string :=
  emit (EvDispatch operation) ;;;
  command <- commands_get operation ;;
  match command with
  | Some command => call_execute command
  | None =>
      let error_message := "No such command: " +:+ operation in
      logging_error error_message ;;;
      ret error_message
  end.

(** ** Plugin discovery *)

(** One name of [dir(plugin_module)] with the object bound to it, sorted
    by the test of [register_plugin_commands]. *)
Inductive member : Type :=
| NotAType
| UnrelatedClass
| CommandABC
| CommandSubclass (construct : result (Command World)).

(** [isinstance(item, type) and issubclass(item, Command) and item is not Command] *)
Definition qualifies (item : member) : option (result (Command World)) :=
  match item with
  | CommandSubclass construct => Some construct
  | NotAType | UnrelatedClass | CommandABC => None
  end.

(** A loaded module, as [dir] lists it: names in ascending order. *)
Definition pymodule : Type := list (string * member).

(** One entry of [pkgutil.iter_modules([plugins_path])], with what
    [importlib.import_module] does for it. *)
Record plugin_entry : Type := {
  plugin_name : string;
  is_pkg : bool;
  import_module : result pymodule
}.

Fixpoint register_plugin_commands (plugin_module : pymodule) (plugin_name : string)
  : M World unit :=
  match plugin_module with
  | [] => ret tt
  | (item_name, item) :: rest =>
      match qualifies item with
      | Some construct =>
          instance <- lift construct ;;
          register_command plugin_name instance ;;;
          logging_info ("Command '" +:+ plugin_name +:+ "' from plugin '"
                        +:+ plugin_name +:+ "' registered.")
      | None => ret tt
      end ;;;
      register_plugin_commands rest plugin_name
  end.

Definition plugins_package : string := "app.plugins".
Definition plugins_path : string := replace "." "/" plugins_package.

(** The body of the [for] loop of [load_plugins] for one entry. *)
Definition load_plugin (entry : plugin_entry) : M World unit :=
  if is_pkg entry then
    try_except
      (plugin_module <- lift (import_module entry) ;;
       register_plugin_commands plugin_module (plugin_name entry))
      (fun e =>
         match import_error_message e with
         | Some text =>
             Some (logging_error ("Error importing plugin "
                                  +:+ plugin_name entry +:+ ": " +:+ text))
         | None => None
         end)
  else ret tt.

Fixpoint load_each (entries : list plugin_entry) : M World unit :=
  match entries with
  | [] => ret tt
  | entry :: rest => load_plugin entry ;;; load_each rest
  end.

(** [plugins_dir] is [None] when [os.path.exists(plugins_path)] is false,
    and otherwise the entries that [pkgutil.iter_modules] yields. *)
Definition load_plugins (plugins_dir : option (list plugin_entry)) : M World unit :=
  match plugins_dir with
  | None =>
      logging_warning ("Plugins directory '" +:+ plugins_path +:+ "' not found.")
  | Some entries => load_each entries
  end.

(** ** The dispatch loop *)

(** The statements of the loop body after [input] has returned [raw]. *)
Definition handle_line (raw : string) (continue : M World unit) : M World unit :=
  let cmd_input := strip raw in
  if decide (lower cmd_input = "exit") then
    logging_info "Application exit." ;;;
    raise (SystemExit 0)
  else
    result <- execute_command cmd_input ;;
    print result ;;;
    continue.

(** [while True: ...] over what the terminal delivers. *)
Fixpoint dispatch_loop (stdin : list stdin_event) : M World unit :=
  emit (EvPrompt ">>> ") ;;;
  match stdin with
  | [] => raise (EOFError "EOF when reading a line")
  | Interrupt :: _ => raise KeyboardInterrupt
  | Line raw :: rest => handle_line raw (dispatch_loop rest)
  end.

(** The [except KeyboardInterrupt] clause: the name [ys] is bound nowhere
    in the module, so evaluating [ys.exit(0)] raises [NameError]. *)
Definition on_interrupt (e : exn) : option (M World unit) :=
  match e with
  | KeyboardInterrupt =>
      Some (logging_info "Application interrupted and exiting gracefully." ;;;
            raise (NameError "name 'ys' is not defined"))
  | _ => None
  end.

(** The [try ... except ... finally] statement of [start]. *)
Definition start_try (stdin : list stdin_event) : M World unit :=
  try_finally
    (try_except (dispatch_loop stdin) on_interrupt)
    (logging_info "Application shutdown.").

Definition start (plugins_dir : option (list plugin_entry))
  (stdin : list stdin_event) : M World unit :=
  load_plugins plugins_dir ;;;
  logging_info "Application started. Type 'exit' to exit." ;;;
  start_try stdin.

(** [App.__init__], as far as the registry and the log go: the two set-up
    steps report to the log and the handler starts with an empty dictionary.
    The settings dictionary is not read by any code below. *)
Definition App_init (w : World) : state World :=
  {| commands := commands (CommandHandler_init w);
     world := w;
     trace := [EvLog INFO "Logging configured.";
               EvLog INFO "Environment variables loaded."] |}.

(** [app = App(); app.start()] and the status the interpreter exits with. *)
Definition main (plugins_dir : option (list plugin_entry))
  (stdin : list stdin_event) (w : World) : Z * state World :=
  let (r, st) := start plugins_dir stdin (App_init w) in
  (exit_status r, st).

End Registry.

Arguments member World : clear implicits.
Arguments pymodule World : clear implicits.
Arguments plugin_entry World : clear implicits.

(** ** Vocabulary of the statements *)

Section Vocabulary.

Context {World : Type}.

(** A history of [register_command] calls, oldest first. *)
Fixpoint register_all (regs : list (string * Command World)) : M World unit :=
  match regs with
  | [] => ret tt
  | (operation, command) :: rest =>
      register_command operation command ;;; register_all rest
  end.

(** The dictionary after a history of registrations. *)
Definition bound_after (regs : list (string * Command World))
  (m : gmap string (Command World)) : gmap string (Command World) :=
  foldl (fun acc kc => <[kc.1 := kc.2]> acc) m regs.

(** The constructor calls that the member scan of a module makes, in scan
    order: one per qualifying class. *)
Definition instantiations (plugin_module : pymodule World)
  : list (result (Command World)) :=
  omap (fun entry => qualifies entry.2) plugin_module.

(** The state [st] with the events [evs] appended and the registry and the
    world as they are. *)
Definition add_trace (st : state World) (evs : list (event World)) : state World :=
  {| commands := commands st; world := world st; trace := trace st ++ evs |}.

(** The log record that [register_plugin_commands] writes per registration. *)
Definition registered_record (plugin_name : string) : event World :=
  EvLog INFO ("Command '" +:+ plugin_name +:+ "' from plugin '"
              +:+ plugin_name +:+ "' registered.").

(** The log record of the [except ImportError] clause of [load_plugins]. *)
Definition import_failure_record (plugin_name cause : string) : event World :=
  EvLog ERROR ("Error importing plugin " +:+ plugin_name +:+ ": " +:+ cause).

(** An event other than a dispatch of a key that reads as the sentinel. *)
Definition not_sentinel_dispatch (ev : event World) : Prop :=
  match ev with
  | EvDispatch operation => lower operation <> "exit"
  | _ => True
  end.

End Vocabulary.

(** A line made of white space only (the empty line included). *)
Fixpoint blank (s : string) : bool :=
  match s with
  | EmptyString => true
  | String c rest => isspace c && blank rest
  end.

(** ** Sample plugins, over a world that counts the calls made so far *)

Definition greet : Command nat :=
  {| class_name := "GreetCommand";
     execute := fun calls => (Ok "hello", S calls) |}.

Definition farewell : Command nat :=
  {| class_name := "FarewellCommand";
     execute := fun calls => (Ok "goodbye", S calls) |}.

(** A command whose own logic fails. *)
Definition boom : Command nat :=
  {| class_name := "BoomCommand";
     execute := fun calls =>
       (Raise (OtherException "ExecutionError" "boom failed"), S calls) |}.

(** [dir] of a plugin package that defines one command class: the imported
    base class, the class itself, and a module attribute. *)
Definition greet_module : pymodule nat :=
  [("Command", CommandABC);
   ("GreetCommand", CommandSubclass (Ok greet));
   ("__name__", NotAType)].

(** A plugin package that defines two command classes. *)
Definition two_command_module : pymodule nat :=
  [("Command", CommandABC);
   ("FarewellCommand", CommandSubclass (Ok farewell));
   ("GreetCommand", CommandSubclass (Ok greet));
   ("logging", NotAType)].

Definition greet_plugin : plugin_entry nat :=
  {| plugin_name := "greet"; is_pkg := true; import_module := Ok greet_module |}.

Definition two_command_plugin : plugin_entry nat :=
  {| plugin_name := "talk"; is_pkg := true;
     import_module := Ok two_command_module |}.

(** A package whose [__init__.py] does not parse. *)
Definition broken_syntax_plugin : plugin_entry nat :=
  {| plugin_name := "broken"; is_pkg := true;
     import_module := Raise (SyntaxError "invalid syntax (__init__.py, line 1)") |}.

(** A package that imports a module that is not installed. *)
Definition missing_dependency_plugin : plugin_entry nat :=
  {| plugin_name := "broken"; is_pkg := true;
     import_module := Raise (ModuleNotFoundError "No module named 'numpy'") |}.

(** ** Application start-up

    [App.__init__] up to the creation of the handler.  What the operating
    system answers is given by an [os_view]: the outcome of
    [os.makedirs('logs', exist_ok=True)], whether [logging.conf] exists, the
    outcome of [logging.config.fileConfig] on it, and [os.environ].
    [logging.basicConfig] chooses a sink and does not raise; the trace
    records the calls made on [logging], whatever the sink. *)

Record os_view : Type := {
  makedirs_logs : result unit;
  logging_conf_exists : bool;
  fileConfig : result unit;
  environ : gmap string string
}.

(** [d.setdefault(key, value)], as a statement: the dictionary afterwards. *)
Definition setdefault (key value : string) (d : gmap string string)
  : gmap string string :=
  match d !! key with
  | Some _ => d
  | None => <[key := value]> d
  end.

Section Startup.

Context {World : Type}.




(** ** Further vocabulary *)

(** The member scan up to the first constructor that raises: the instances
    built before it, and the exception if there is one. *)
Fixpoint scan (calls : list (result (Command World)))
  : list (Command World) * option exn :=
  match calls with
  | [] => ([], None)
  | Ok c :: rest => let (cs, err) := scan rest in (c :: cs, err)
  | Raise e :: _ => ([], Some e)
  end.

(** The scan of the entry gets to its end, or stops on an exception that
    the [except ImportError] clause takes: discovery goes on after it. *)
Definition absorbed (entry : plugin_entry World) : bool :=
  if is_pkg entry then
    match import_module entry with
    | Ok m =>
        match (scan (instantiations m)).2 with
        | None => true
        | Some e => bool_decide (is_Some (import_error_message e))
        end
    | Raise e => bool_decide (is_Some (import_error_message e))
    end
  else true.

Definition is_log (ev : event World) : bool :=
  match ev with
  | EvLog _ _ => true
  | _ => false
  end.

(** The keys handed to [execute_command], in order. *)
Definition dispatched (tr : list (event World)) : list string :=
  omap (fun ev => match ev with EvDispatch key => Some key | _ => None end) tr.

(** What one turn of the loop leaves for a line whose key is not bound. *)
Definition not_found_turn (raw : string) : list (event World) :=
  [EvPrompt ">>> "; EvDispatch (strip raw);
   EvLog ERROR ("No such command: " +:+ strip raw);
   EvPrint ("No such command: " +:+ strip raw)].

End Startup.

(** The sixteen spellings of the sentinel. *)
Definition sentinel_spellings : list string :=
  e ← ["e"; "E"]; x ← ["x"; "X"]; i ← ["i"; "I"]; t ← ["t"; "T"];
  [e +:+ x +:+ i +:+ t].

(** ** Further samples *)

(** A command that is interrupted by the operator while it runs. *)
Definition stalled : Command nat :=
  {| class_name := "StalledCommand";
     execute := fun calls => (Raise KeyboardInterrupt, S calls) |}.

(** A command that ends the interpreter itself. *)
Definition quit : Command nat :=
  {| class_name := "QuitCommand";
     execute := fun calls => (Raise (SystemExit 3), S calls) |}.

(** A plain module next to the packages, whose import would fail. *)
Definition helper_module : plugin_entry nat :=
  {| plugin_name := "helpers"; is_pkg := false;
     import_module := Raise (SyntaxError "invalid syntax (helpers.py, line 1)") |}.

(** A package with one command class, then a subclass that leaves [execute]
    abstract (its constructor raises [TypeError]), then another class. *)
Definition half_abstract_module : pymodule nat :=
  [("AGreet", CommandSubclass (Ok greet));
   ("Base", CommandSubclass
      (Raise (OtherException "TypeError"
                "Can't instantiate abstract class Base with abstract method execute")));
   ("Command", CommandABC);
   ("Zed", CommandSubclass (Ok farewell))].

Definition half_abstract_plugin : plugin_entry nat :=
  {| plugin_name := "half"; is_pkg := true;
     import_module := Ok half_abstract_module |}.

(** A package whose second command class imports a missing module in its
    constructor. *)
Definition lazy_import_module : pymodule nat :=
  [("AGreet", CommandSubclass (Ok greet));
   ("Lazy", CommandSubclass (Raise (ModuleNotFoundError "No module named 'yaml'")))].

Definition lazy_import_plugin : plugin_entry nat :=
  {| plugin_name := "lazy"; is_pkg := true;
     import_module := Ok lazy_import_module |}.

(** A host with no [logging.conf] and two environment variables. *)
Definition plain_host : os_view :=
  {| makedirs_logs := Ok tt;
     logging_conf_exists := false;
     fileConfig := Ok tt;
     environ := <["HOME" := "/root"]> (<["ENVIRONMENT" := ""]> ∅) |}.

(** ** Properties *)

Section RegistryFacts.

Context {World : Type}.
Implicit Types (st : state World) (c command : Command World)
  (key operation : string) (regs : list (string * Command World)).

Lemma register_all_run regs st :
  register_all regs st =
    (Ok tt, {| commands := bound_after regs (commands st);
               world := world st; trace := trace st |}).
Proof.
  revert st. induction regs as [|[k c] regs IH]; intros st.
  - by destruct st.
  - simpl. unfold bind at 1. simpl. rewrite IH. reflexivity.
Qed.

Lemma bound_after_other regs key (m : gmap string (Command World)) :
  key ∉ regs.*1 -> bound_after regs m !! key = m !! key.
Proof.
  revert m. induction regs as [|[k c] regs IH]; intros m Hnot; [done|].
  simpl in *. apply not_elem_of_cons in Hnot as [Hne Hnot].
  rewrite (IH _ Hnot). by rewrite lookup_insert_ne.
Qed.

(** Dispatch of a bound key: the call of [execute] is the whole effect. *)
Lemma execute_command_bound key c st :
  commands st !! key = Some c ->
  execute_command key st =
    (let (r, w') := execute c (world st) in
     (r, {| commands := commands st; world := w';
            trace := trace st ++ [EvDispatch key; EvExecute c] |})).
Proof.
  intros Hget. unfold execute_command, bind, emit, commands_get, call_execute.
  simpl. rewrite Hget. simpl. destruct (execute c (world st)) as [r w'].
  by rewrite <- app_assoc.
Qed.

(** Dispatch of an unbound key. *)
Lemma execute_command_unbound key st :
  commands st !! key = None ->
  execute_command key st =
    (Ok ("No such command: " +:+ key),
     add_trace st [EvDispatch key; EvLog ERROR ("No such command: " +:+ key)]).
Proof.
  intros Hget.
  unfold execute_command, bind, emit, commands_get, logging_error, emit, ret, add_trace.
  simpl. rewrite Hget. simpl. by rewrite <- app_assoc.
Qed.

(** C4: once [register_command key c] has run, and whatever is registered
    afterwards under other keys, dispatching [key] calls [execute] of [c]
    exactly once, calls no other command, and returns the text that [c]
    produced as its own result. *)
Theorem C4_dispatch_runs_registered_command key c regs st text w' :
  key ∉ regs.*1 ->
  execute c (world st) = (Ok text, w') ->
  (register_command key c ;;; register_all regs ;;; execute_command key) st =
    (Ok text,
     {| commands := bound_after regs (<[key := c]> (commands st));
        world := w';
        trace := trace st ++ [EvDispatch key; EvExecute c] |}).
Proof.
  intros Hfresh Hrun.
  unfold bind at 1. simpl. unfold bind at 1. rewrite register_all_run. simpl.
  rewrite (execute_command_bound key c).
  - simpl. by rewrite Hrun.
  - simpl. rewrite bound_after_other by done. apply lookup_insert_eq.
Qed.

(** C5: registering [c1] and then [c2] under one key raises nothing and
    leaves the dictionary as if only [c2] had been registered; dispatching
    the key then calls [execute] of [c2] and of no other command. *)
Theorem C5_last_registration_wins key c1 c2 st :
  (register_command key c1 ;;; register_command key c2) st =
    (Ok tt, {| commands := <[key := c2]> (commands st);
               world := world st; trace := trace st |})
  /\ (register_command key c1 ;;; register_command key c2 ;;;
      execute_command key) st =
     (let (r, w') := execute c2 (world st) in
      (r, {| commands := <[key := c2]> (commands st);
             world := w';
             trace := trace st ++ [EvDispatch key; EvExecute c2] |})).
Proof.
  split.
  { unfold bind, register_command. simpl. by rewrite insert_insert_eq. }
  unfold bind, register_command. simpl.
  rewrite (execute_command_bound key c2) by (simpl; apply lookup_insert_eq).
  simpl. by rewrite insert_insert_eq.
Qed.

(** C6: a key that is unbound at the start and that no registration since
    has named is dispatched without calling any command: one ERROR record
    is logged and the message "No such command: <key>" is returned as a
    value. *)
Theorem C6_unregistered_key_reported key regs st :
  commands st !! key = None ->
  key ∉ regs.*1 ->
  (register_all regs ;;; execute_command key) st =
    (Ok ("No such command: " +:+ key),
     {| commands := bound_after regs (commands st);
        world := world st;
        trace := trace st ++ [EvDispatch key;
                              EvLog ERROR ("No such command: " +:+ key)] |}).
Proof.
  intros Hnone Hfresh. unfold bind. rewrite register_all_run.
  rewrite execute_command_unbound; [done|].
  simpl. by rewrite bound_after_other.
Qed.

End RegistryFacts.

Lemma C4_dispatch_runs_registered_command_witness :
  (register_command "greet" greet ;;; register_all [("bye", farewell)] ;;;
   execute_command "greet") (CommandHandler_init 0%nat) =
    (Ok "hello",
     {| commands := <["bye" := farewell]> (<["greet" := greet]> ∅);
        world := 1%nat;
        trace := [EvDispatch "greet"; EvExecute greet] |}).
Proof.
  apply (C4_dispatch_runs_registered_command
           "greet" greet [("bye", farewell)] (CommandHandler_init 0%nat)).
  - simpl. rewrite list_elem_of_singleton. discriminate.
  - reflexivity.
Defined.

Lemma C6_unregistered_key_reported_witness :
  (register_all [("greet", greet)] ;;; execute_command "unknown_key")
    (CommandHandler_init 0%nat) =
    (Ok "No such command: unknown_key",
     {| commands := <["greet" := greet]> ∅;
        world := 0%nat;
        trace := [EvDispatch "unknown_key";
                  EvLog ERROR "No such command: unknown_key"] |}).
Proof.
  apply (C6_unregistered_key_reported
           "unknown_key" [("greet", greet)] (CommandHandler_init 0%nat)).
  - reflexivity.
  - simpl. rewrite list_elem_of_singleton. discriminate.
Defined.

Section DiscoveryFacts.

Context {World : Type}.
Implicit Types (st : state World) (c : Command World)
  (cs : list (Command World)) (m : pymodule World) (entry : plugin_entry World).

(** Registering several instances under one name keeps the last. *)
Lemma bound_after_same_key (name : string) cs (d : gmap string (Command World)) :
  bound_after (pair name <$> cs) d =
    match last cs with
    | Some c => <[name := c]> d
    | None => d
    end.
Proof.
  revert d. induction cs as [|c cs IH]; intros d; [done|].
  simpl. rewrite IH. destruct cs as [|c' cs]; [done|].
  change (last (c :: c' :: cs)) with (last (c' :: cs)).
  destruct (last (c' :: cs)) eqn:Hlast.
  - by rewrite insert_insert_eq.
  - by apply last_None in Hlast.
Qed.

(** The member scan of a module whose constructors all return: every
    qualifying class is instantiated and bound under the plugin's name, in
    scan order, with one INFO record each. *)
Lemma register_plugin_commands_run m (name : string) cs st :
  instantiations m = Ok <$> cs ->
  register_plugin_commands m name st =
    (Ok tt, {| commands := bound_after (pair name <$> cs) (commands st);
               world := world st;
               trace := trace st ++ replicate (length cs) (registered_record name) |}).
Proof.
  revert cs st. induction m as [|[item_name item] m IH]; intros cs st Hcs.
  - destruct cs; [|done]. simpl. unfold ret. destruct st. simpl.
    by rewrite app_nil_r.
  - unfold instantiations in Hcs. simpl in Hcs.
    destruct item as [| | |construct]; simpl in *.
    1-3: unfold bind at 1; unfold ret at 1; by apply IH.
    destruct cs as [|c cs]; [done|]. simpl in Hcs.
    injection Hcs as -> Hcs.
    unfold bind, lift, register_command, logging_info, emit. simpl.
    rewrite (IH cs) by exact Hcs. simpl.
    by rewrite <- app_assoc.
Qed.

(** A package that imports and whose constructors all return. *)
Lemma load_plugin_valid entry m cs st :
  is_pkg entry = true ->
  import_module entry = Ok m ->
  instantiations m = Ok <$> cs ->
  load_plugin entry st =
    (Ok tt, {| commands := bound_after (pair (plugin_name entry) <$> cs) (commands st);
               world := world st;
               trace := trace st ++ replicate (length cs)
                                      (registered_record (plugin_name entry)) |}).
Proof.
  intros Hpkg Himp Hcs. unfold load_plugin. rewrite Hpkg, Himp.
  unfold try_except, bind, lift.
  by rewrite (register_plugin_commands_run m _ cs).
Qed.

(** A package whose import raises: the [except] clause takes the
    [ImportError] family only. *)
Lemma load_plugin_import_fails entry e st :
  is_pkg entry = true ->
  import_module entry = Raise e ->
  load_plugin entry st =
    match import_error_message e with
    | Some cause =>
        (Ok tt, add_trace st [import_failure_record (plugin_name entry) cause])
    | None => (Raise e, st)
    end.
Proof.
  intros Hpkg Himp. unfold load_plugin. rewrite Hpkg, Himp.
  unfold try_except, bind, lift. by destruct (import_error_message e).
Qed.

(** C8, as the code has it: a package that loads and whose member scan
    meets two or more classes that pass the test of the scan, each of which
    constructs without arguments and without raising, ends with one binding
    changed: the package's name is bound to the instance of the class met
    last in the scan, and every other key is as before. *)
Theorem C8_last_qualifying_class_is_bound entry m cs st :
  is_pkg entry = true ->
  import_module entry = Ok m ->
  instantiations m = Ok <$> cs ->
  (2 <= length cs)%nat ->
  exists c,
    last cs = Some c
    /\ load_plugins (Some [entry]) st =
         (Ok tt, {| commands := <[plugin_name entry := c]> (commands st);
                    world := world st;
                    trace := trace st ++ replicate (length cs)
                               (registered_record (plugin_name entry)) |}).
Proof.
  intros Hpkg Himp Hcs Hlen.
  destruct (last cs) as [c|] eqn:Hlast.
  - exists c. split; [done|]. simpl. unfold bind at 1.
    rewrite (load_plugin_valid entry m cs) by done.
    unfold ret. by rewrite bound_after_same_key, Hlast.
  - apply last_None in Hlast. subst cs. simpl in Hlen. lia.
Qed.

(** C2, as the code has it: when the import of one package raises an
    [ImportError] (or its subclass [ModuleNotFoundError]) and the other
    package loads with all constructors returning, the pass completes in
    either scan order: the failure is logged at ERROR with the failing
    package's name and the cause, the binding under the failing package's
    name is untouched, and the valid package's name is bound to the
    instance of its last qualifying class (the dictionary is unchanged when
    it has none). *)
Theorem C2_import_error_does_not_abort (bad good : plugin_entry World)
  e cause m cs root st :
  is_pkg bad = true ->
  import_module bad = Raise e ->
  import_error_message e = Some cause ->
  is_pkg good = true ->
  import_module good = Ok m ->
  instantiations m = Ok <$> cs ->
  plugin_name bad <> plugin_name good ->
  root = [bad; good] \/ root = [good; bad] ->
  (load_plugins (Some root) st).1 = Ok tt
  /\ import_failure_record (plugin_name bad) cause
       ∈ trace (load_plugins (Some root) st).2
  /\ commands (load_plugins (Some root) st).2 !! plugin_name bad
       = commands st !! plugin_name bad
  /\ commands (load_plugins (Some root) st).2
       = match last cs with
         | Some c => <[plugin_name good := c]> (commands st)
         | None => commands st
         end.
Proof.
  intros Hpb Hib Hmsg Hpg Hig Hcs Hne Hroot.
  rewrite <- bound_after_same_key.
  assert (Hbad : forall st', load_plugin bad st' =
            (Ok tt, add_trace st' [import_failure_record (plugin_name bad) cause])).
  { intros st'. by rewrite (load_plugin_import_fails bad e), Hmsg. }
  assert (Hkeep : bound_after (pair (plugin_name good) <$> cs) (commands st)
                    !! plugin_name bad = commands st !! plugin_name bad).
  { apply bound_after_other. rewrite <- list_fmap_compose.
    intros Hin. apply list_elem_of_fmap in Hin as [c [Heq _]]. by apply Hne. }
  destruct Hroot as [-> | ->]; simpl; unfold bind.
  - rewrite Hbad. rewrite (load_plugin_valid good m cs) by done.
    unfold ret. simpl. split; [done|]. split; [|done].
    rewrite !elem_of_app. left; right. by apply list_elem_of_singleton.
  - rewrite (load_plugin_valid good m cs) by done. rewrite Hbad.
    unfold ret. simpl. split; [done|]. split; [|done].
    rewrite !elem_of_app. right. by apply list_elem_of_singleton.
Qed.

End DiscoveryFacts.

Lemma C8_last_qualifying_class_is_bound_witness :
  exists c,
    last [farewell; greet] = Some c
    /\ load_plugins (Some [two_command_plugin]) (App_init 0%nat) =
         (Ok tt, {| commands := <["talk" := c]> (commands (App_init 0%nat));
                    world := 0%nat;
                    trace := trace (App_init 0%nat)
                             ++ replicate 2 (registered_record "talk") |}).
Proof.
  apply (C8_last_qualifying_class_is_bound
           two_command_plugin two_command_module [farewell; greet]
           (App_init 0%nat)).
  - reflexivity.
  - reflexivity.
  - reflexivity.
  - simpl. lia.
Defined.

(** C8 as stated fails: the test of the scan also takes a subclass that
    leaves [execute] abstract.  For a package with the concrete classes
    [AGreet] and [Zed] and such a class [Base] between them, the scan
    raises at [Base()]: discovery ends with the [TypeError], the name is
    bound to the instance of [AGreet], and [Zed], the last qualifying
    class, is never instantiated. *)
Lemma C8_abstract_subclass_stops_scan :
  load_plugins (Some [half_abstract_plugin]) (App_init 0%nat) =
    (Raise (OtherException "TypeError"
              "Can't instantiate abstract class Base with abstract method execute"),
     {| commands := <["half" := greet]> (commands (App_init 0%nat));
        world := 0%nat;
        trace := trace (App_init 0%nat) ++ [registered_record "half"] |})
  /\ commands (load_plugins (Some [half_abstract_plugin]) (App_init 0%nat)).2
       !! "half" <> Some farewell.
Proof.
  split; [reflexivity|].
  intros Hbound. vm_compute in Hbound. discriminate Hbound.
Qed.

Lemma C2_import_error_does_not_abort_witness :
  let root := [missing_dependency_plugin; greet_plugin] in
  (load_plugins (Some root) (App_init 0%nat)).1 = Ok tt
  /\ import_failure_record "broken" "No module named 'numpy'"
       ∈ trace (load_plugins (Some root) (App_init 0%nat)).2
  /\ commands (load_plugins (Some root) (App_init 0%nat)).2 !! "broken"
       = commands (App_init 0%nat) !! "broken"
  /\ commands (load_plugins (Some root) (App_init 0%nat)).2
       = match last [greet] with
         | Some c => <["greet" := c]> (commands (App_init 0%nat))
         | None => commands (App_init 0%nat)
         end.
Proof.
  apply (C2_import_error_does_not_abort
           missing_dependency_plugin greet_plugin
           (ModuleNotFoundError "No module named 'numpy'")
           "No module named 'numpy'" greet_module [greet]).
  - reflexivity.
  - reflexivity.
  - reflexivity.
  - reflexivity.
  - reflexivity.
  - reflexivity.
  - simpl. discriminate.
  - left. reflexivity.
Defined.

(** C2 as stated fails for a syntax defect: [SyntaxError] is not an
    [ImportError], so it leaves [load_plugins] at the broken package.
    Nothing is logged, the valid package after it is never imported, and
    the process ends before the loop starts. *)
Lemma C2_syntax_error_aborts_discovery :
  load_plugins (Some [broken_syntax_plugin; greet_plugin]) (App_init 0%nat) =
    (Raise (SyntaxError "invalid syntax (__init__.py, line 1)"), App_init 0%nat)
  /\ commands (load_plugins (Some [broken_syntax_plugin; greet_plugin])
                 (App_init 0%nat)).2 !! "greet" = None
  /\ main (Some [broken_syntax_plugin; greet_plugin]) [Line "greet"] 0%nat =
       (1, App_init 0%nat).
Proof. repeat split. Qed.

Section LoopFacts.

Context {World : Type}.
Implicit Types (st : state World) (c : Command World)
  (stdin rest : list stdin_event) (raw key : string).

(** One turn of the loop on a line: the prompt, then the loop body. *)
Lemma dispatch_loop_line raw rest st :
  dispatch_loop (Line raw :: rest) st =
    handle_line raw (dispatch_loop rest) (add_trace st [EvPrompt ">>> "]).
Proof. reflexivity. Qed.

Lemma handle_line_sentinel raw (k : M World unit) st :
  lower (strip raw) = "exit" ->
  handle_line raw k st =
    (Raise (SystemExit 0), add_trace st [EvLog INFO "Application exit."]).
Proof.
  intros Hexit. unfold handle_line. by destruct (decide (lower (strip raw) = "exit")).
Qed.

Lemma handle_line_dispatches raw (k : M World unit) st :
  lower (strip raw) <> "exit" ->
  handle_line raw k st =
    (result <- execute_command (strip raw) ;; print result ;;; k) st.
Proof.
  intros Hother. unfold handle_line. by destruct (decide (lower (strip raw) = "exit")).
Qed.

(** Whatever the key, a dispatch leaves two events: its own entry and
    either the call of the bound command or the ERROR record. *)
Lemma execute_command_events key st :
  exists r w' ev,
    execute_command key st =
      (r, {| commands := commands st; world := w';
             trace := trace st ++ [EvDispatch key; ev] |})
    /\ not_sentinel_dispatch ev.
Proof.
  destruct (commands st !! key) as [c|] eqn:Hget.
  - rewrite (execute_command_bound key c) by done.
    destruct (execute c (world st)) as [r w'].
    by exists r, w', (EvExecute c).
  - rewrite execute_command_unbound by done.
    by exists (Ok ("No such command: " +:+ key)), (world st),
              (EvLog ERROR ("No such command: " +:+ key)).
Qed.

(** A line that is not the sentinel: the dispatch, then either the printed
    result and the next turn, or the exception of the command. *)
Lemma handle_line_step raw (k : M World unit) st :
  lower (strip raw) <> "exit" ->
  exists r w' ev,
    not_sentinel_dispatch ev
    /\ handle_line raw k st =
         match r with
         | Ok text =>
             k {| commands := commands st; world := w';
                  trace := trace st ++ [EvDispatch (strip raw); ev; EvPrint text] |}
         | Raise e =>
             (Raise e, {| commands := commands st; world := w';
                          trace := trace st ++ [EvDispatch (strip raw); ev] |})
         end.
Proof.
  intros Hother. rewrite handle_line_dispatches by done. unfold bind at 1.
  destruct (execute_command_events (strip raw) st) as (r & w' & ev & -> & Hev).
  exists r, w', ev. split; [done|]. destruct r as [text|e]; [|done].
  unfold bind, print, emit. simpl. by rewrite <- app_assoc.
Qed.

(** The [while True] loop never falls through, never touches the registry,
    only appends to the trace, and never dispatches a key that reads as the
    sentinel. *)
Lemma dispatch_loop_invariant stdin st :
  exists e more,
    (dispatch_loop stdin st).1 = Raise e
    /\ commands (dispatch_loop stdin st).2 = commands st
    /\ trace (dispatch_loop stdin st).2 = trace st ++ more
    /\ Forall not_sentinel_dispatch more.
Proof.
  revert st. induction stdin as [|[raw|] rest IH]; intros st.
  - exists (EOFError "EOF when reading a line"), [EvPrompt ">>> "].
    repeat split. by repeat constructor.
  - rewrite dispatch_loop_line.
    destruct (decide (lower (strip raw) = "exit")) as [Hexit|Hother].
    + rewrite handle_line_sentinel by done.
      exists (SystemExit 0), [EvPrompt ">>> "; EvLog INFO "Application exit."].
      simpl. rewrite <- app_assoc. repeat split. by repeat constructor.
    + destruct (handle_line_step raw (dispatch_loop rest)
                  (add_trace st [EvPrompt ">>> "]) Hother)
        as (r & w' & ev & Hev & ->).
      destruct r as [text|e].
      * match goal with |- context [dispatch_loop rest ?s] =>
          destruct (IH s) as (e & more & He & Hc & Ht & Hm) end.
        exists e, ([EvPrompt ">>> "; EvDispatch (strip raw); ev; EvPrint text] ++ more).
        rewrite He, Hc, Ht. simpl. rewrite <- !app_assoc. simpl.
        repeat split. repeat constructor; done.
      * exists e, [EvPrompt ">>> "; EvDispatch (strip raw); ev].
        simpl. rewrite <- app_assoc. repeat split. repeat constructor; done.
  - exists KeyboardInterrupt, [EvPrompt ">>> "].
    repeat split. by repeat constructor.
Qed.

(** C10: [execute_command] never changes the dictionary, whether the key is
    bound or not and whether the command returns or raises, and so a whole
    session of the loop leaves it as it was; [register_command] is the one
    operation that writes it, setting the binding of its key. *)
Theorem C10_dispatch_preserves_registry key st :
  commands (execute_command key st).2 = commands st
  /\ (forall stdin, commands (start_try stdin st).2 = commands st)
  /\ (forall c, commands (register_command key c st).2
                = <[key := c]> (commands st)).
Proof.
  split; [|split; [|done]].
  - destruct (commands st !! key) as [c|] eqn:Hget.
    + rewrite (execute_command_bound key c) by done.
      by destruct (execute c (world st)).
    + by rewrite execute_command_unbound.
  - intros stdin. unfold start_try, try_finally, try_except.
    destruct (dispatch_loop_invariant stdin st) as (e & more & He & Hc & _).
    destruct (dispatch_loop stdin st) as [r st'] eqn:Hloop.
    simpl in He, Hc. subst r. by destruct e.
Qed.

(** C1, as the code has it: when the command bound to a key raises,
    [execute_command] has no handler around the call, so the exception
    reaches the caller as it is, nothing is logged and the registry is as
    before; the loop turn that dispatched the key ends with that exception
    and the lines after it are not read. *)
Theorem C1_failing_command_propagates key c e w' st :
  commands st !! key = Some c ->
  execute c (world st) = (Raise e, w') ->
  execute_command key st =
    (Raise e, {| commands := commands st; world := w';
                 trace := trace st ++ [EvDispatch key; EvExecute c] |})
  /\ (forall raw rest,
        strip raw = key -> lower key <> "exit" ->
        dispatch_loop (Line raw :: rest) st =
          (Raise e, {| commands := commands st; world := w';
                       trace := trace st ++ [EvPrompt ">>> "; EvDispatch key;
                                             EvExecute c] |})).
Proof.
  intros Hget Hrun. split.
  - rewrite (execute_command_bound key c) by done. by rewrite Hrun.
  - intros raw rest <- Hother. rewrite dispatch_loop_line.
    rewrite handle_line_dispatches by done. unfold bind at 1.
    rewrite (execute_command_bound (strip raw) c) by done.
    simpl. rewrite Hrun. by rewrite <- app_assoc.
Qed.

(** C3, on the code: an interrupt at [input] is caught by the [except]
    clause, which logs the INFO record and then evaluates the unbound name
    [ys]; the [NameError] leaves [start] after the [finally] record, and
    the process ends with status 1. *)
Theorem C3_interrupt_ends_with_name_error rest st :
  start_try (Interrupt :: rest) st =
    (Raise (NameError "name 'ys' is not defined"),
     add_trace st [EvPrompt ">>> ";
                   EvLog INFO "Application interrupted and exiting gracefully.";
                   EvLog INFO "Application shutdown."])
  /\ exit_status (start_try (Interrupt :: rest) st).1 = 1.
Proof.
  assert (Hrun : start_try (Interrupt :: rest) st =
    (Raise (NameError "name 'ys' is not defined"),
     add_trace st [EvPrompt ">>> ";
                   EvLog INFO "Application interrupted and exiting gracefully.";
                   EvLog INFO "Application shutdown."])).
  { unfold start_try, try_finally, try_except, add_trace. simpl.
    by rewrite <- !app_assoc. }
  by rewrite Hrun.
Qed.

(** C7: a line whose stripped, lower-cased text is [exit] ends the loop at
    once, whatever the registry holds: the INFO record of the exit and the
    [finally] record are logged, no dispatch is made, no command runs,
    nothing is printed, the later lines are not read, and the process exits
    with status 0. *)
Theorem C7_sentinel_ends_with_status_zero raw rest st :
  lower (strip raw) = "exit" ->
  start_try (Line raw :: rest) st =
    (Raise (SystemExit 0),
     add_trace st [EvPrompt ">>> ";
                   EvLog INFO "Application exit.";
                   EvLog INFO "Application shutdown."])
  /\ exit_status (start_try (Line raw :: rest) st).1 = 0.
Proof.
  intros Hexit.
  assert (Hrun : start_try (Line raw :: rest) st =
    (Raise (SystemExit 0),
     add_trace st [EvPrompt ">>> ";
                   EvLog INFO "Application exit.";
                   EvLog INFO "Application shutdown."])).
  { unfold start_try, try_finally, try_except.
    rewrite dispatch_loop_line, handle_line_sentinel by done.
    unfold add_trace. simpl. by rewrite <- !app_assoc. }
  by rewrite Hrun.
Qed.

(** C9, as the code has it: a line that is empty once stripped is not the
    sentinel, so the loop dispatches the empty key for it; a command bound
    to the empty key is then looked up and executed. *)
Theorem C9_blank_line_dispatches_empty_key raw rest st :
  strip raw = "" ->
  exists more,
    trace (dispatch_loop (Line raw :: rest) st).2 =
      trace st ++ [EvPrompt ">>> "; EvDispatch ""] ++ more
    /\ (forall c, commands st !! "" = Some c ->
                  exists more', more = EvExecute c :: more').
Proof.
  intros Hblank. rewrite dispatch_loop_line.
  rewrite handle_line_dispatches by (rewrite Hblank; discriminate).
  rewrite Hblank. unfold bind at 1.
  destruct (commands st !! "") as [c|] eqn:Hget.
  - rewrite (execute_command_bound "" c) by done. simpl.
    destruct (execute c (world st)) as [[text|e] w'].
    + unfold bind at 1, print, emit. simpl.
      match goal with |- context [dispatch_loop rest ?s] =>
        destruct (dispatch_loop_invariant rest s) as (e & more & _ & _ & Ht & _) end.
      exists (EvExecute c :: EvPrint text :: more). rewrite Ht. simpl.
      rewrite <- !app_assoc. split; [done|].
      intros c' [= <-]. by eexists.
    + exists [EvExecute c]. simpl. rewrite <- !app_assoc. split; [done|].
      intros c' [= <-]. by eexists.
  - rewrite execute_command_unbound by done.
    unfold bind at 1, print, emit. simpl.
    match goal with |- context [dispatch_loop rest ?s] =>
      destruct (dispatch_loop_invariant rest s) as (e & more & _ & _ & Ht & _) end.
    exists (EvLog ERROR "No such command: " :: EvPrint "No such command: " :: more).
    rewrite Ht. simpl. rewrite <- !app_assoc. split; [done|]. by intros c [=].
Qed.

End LoopFacts.

Lemma C1_failing_command_propagates_witness :
  let st := (register_command "boom" boom (App_init 0%nat)).2 in
  let e := OtherException "ExecutionError" "boom failed" in
  execute_command "boom" st =
    (Raise e, {| commands := commands st; world := 1%nat;
                 trace := trace st ++ [EvDispatch "boom"; EvExecute boom] |})
  /\ (forall raw rest,
        strip raw = "boom" -> lower "boom" <> "exit" ->
        dispatch_loop (Line raw :: rest) st =
          (Raise e, {| commands := commands st; world := 1%nat;
                       trace := trace st ++ [EvPrompt ">>> "; EvDispatch "boom";
                                             EvExecute boom] |})).
Proof.
  apply (C1_failing_command_propagates
           "boom" boom (OtherException "ExecutionError" "boom failed") 1%nat
           (register_command "boom" boom (App_init 0%nat)).2).
  - reflexivity.
  - reflexivity.
Defined.

(** C1 as stated fails: with a command that raises bound to [boom],
    dispatch returns no value at all, logs nothing, and a session that
    reads [boom] and then [greet] ends at the first line. *)
Lemma C1_failing_command_is_not_caught :
  let st := (register_all [("boom", boom); ("greet", greet)] (App_init 0%nat)).2 in
  let e := OtherException "ExecutionError" "boom failed" in
  execute_command "boom" st =
    (Raise e, {| commands := commands st; world := 1%nat;
                 trace := trace st ++ [EvDispatch "boom"; EvExecute boom] |})
  /\ ~ (exists reason st', execute_command "boom" st = (Ok reason, st'))
  /\ start_try [Line "boom"; Line "greet"] st =
       (Raise e, {| commands := commands st; world := 1%nat;
                    trace := trace st ++ [EvPrompt ">>> "; EvDispatch "boom";
                                          EvExecute boom;
                                          EvLog INFO "Application shutdown."] |}).
Proof.
  cbv zeta. split; [reflexivity|]. split; [|reflexivity].
  intros (reason & st' & Hrun). discriminate Hrun.
Qed.

Lemma C7_sentinel_ends_with_status_zero_witness :
  let st := (register_command "exit" greet (App_init 0%nat)).2 in
  start_try [Line " Exit "; Line "greet"] st =
    (Raise (SystemExit 0),
     add_trace st [EvPrompt ">>> ";
                   EvLog INFO "Application exit.";
                   EvLog INFO "Application shutdown."])
  /\ exit_status (start_try [Line " Exit "; Line "greet"] st).1 = 0.
Proof.
  apply (C7_sentinel_ends_with_status_zero
           " Exit " [Line "greet"]
           (register_command "exit" greet (App_init 0%nat)).2).
  reflexivity.
Defined.

Lemma C9_blank_line_dispatches_empty_key_witness :
  let st := (register_command "" greet (App_init 0%nat)).2 in
  exists more,
    trace (dispatch_loop [Line "   "] st).2 =
      trace st ++ [EvPrompt ">>> "; EvDispatch ""] ++ more
    /\ (forall c, commands st !! "" = Some c ->
                  exists more', more = EvExecute c :: more').
Proof.
  apply (C9_blank_line_dispatches_empty_key
           "   " [] (register_command "" greet (App_init 0%nat)).2).
  reflexivity.
Defined.

(** C9 as stated fails: with a command bound to the empty key, an empty
    line and a line of spaces each dispatch the empty key and run that
    command. *)
Lemma C9_empty_key_is_reachable :
  let st := (register_command "" greet (App_init 0%nat)).2 in
  start_try [Line ""; Line "   "; Line "exit"] st =
    (Raise (SystemExit 0),
     {| commands := commands st; world := 2%nat;
        trace := trace st ++
          [EvPrompt ">>> "; EvDispatch ""; EvExecute greet; EvPrint "hello";
           EvPrompt ">>> "; EvDispatch ""; EvExecute greet; EvPrint "hello";
           EvPrompt ">>> "; EvLog INFO "Application exit.";
           EvLog INFO "Application shutdown."] |}).
Proof. reflexivity. Qed.

(** ** Strings *)

Lemma rstrip_empty s : rstrip s = "" -> blank s = true.
Proof.
  induction s as [|c s IH]; [done|]. simpl.
  destruct (rstrip s); [|done].
  destruct (isspace c); [|done]. intros _. by rewrite IH.
Qed.

Lemma lstrip_blank s : blank (lstrip s) = true -> blank s = true.
Proof.
  induction s as [|c s IH]; [done|]. simpl.
  destruct (isspace c) eqn:Hc; [done|]. simpl. by rewrite Hc.
Qed.

(** The lines that strip to the empty key are the blank ones. *)
Lemma strip_empty_iff_blank s : strip s = "" <-> blank s = true.
Proof.
  split.
  - intros Hs. by apply lstrip_blank, rstrip_empty.
  - intros Hs. unfold strip.
    assert (Hl : lstrip s = "").
    { induction s as [|c s IH]; [done|]. simpl in *.
      destruct (isspace c); [by apply IH|done]. }
    by rewrite Hl.
Qed.

(** ** The scenario of a session with one plugin *)

Example strip_lower_sentinel : lower (strip " Exit ") = "exit".
Proof. reflexivity. Qed.

Example plugins_path_value : plugins_path = "app/plugins".
Proof. reflexivity. Qed.

Example session_greet_unknown_exit :
  main (Some [greet_plugin])
       [Line "greet"; Line "unknown_key"; Line "exit"; Line "greet"] 0%nat =
    (0,
     {| commands := {["greet" := greet]};
        world := 1%nat;
        trace :=
          [EvLog INFO "Logging configured.";
           EvLog INFO "Environment variables loaded.";
           EvLog INFO "Command 'greet' from plugin 'greet' registered.";
           EvLog INFO "Application started. Type 'exit' to exit.";
           EvPrompt ">>> "; EvDispatch "greet"; EvExecute greet; EvPrint "hello";
           EvPrompt ">>> "; EvDispatch "unknown_key";
           EvLog ERROR "No such command: unknown_key";
           EvPrint "No such command: unknown_key";
           EvPrompt ">>> "; EvLog INFO "Application exit.";
           EvLog INFO "Application shutdown."] |}).
Proof. reflexivity. Qed.

Example missing_plugins_directory :
  load_plugins None (App_init 0%nat) =
    (Ok tt, add_trace (App_init 0%nat)
              [EvLog WARNING "Plugins directory 'app/plugins' not found."]).
Proof. reflexivity. Qed.

(** ** Discovery on any plugin root *)

Section DiscoveryScan.

Context {World : Type}.
Implicit Types (st : state World) (c : Command World)
  (cs : list (Command World)) (m : pymodule World)
  (entry bad : plugin_entry World) (entries pre post : list (plugin_entry World)).

Lemma state_eta st :
  {| commands := commands st; world := world st; trace := trace st |} = st.
Proof. by destruct st. Qed.

Lemma instantiations_cons (item_name : string) (item : member World) m :
  instantiations ((item_name, item) :: m) =
    match qualifies item with
    | Some construct => construct :: instantiations m
    | None => instantiations m
    end.
Proof. unfold instantiations. simpl. by destruct (qualifies item). Qed.

(** The member scan on any module, in closed form. *)
Lemma register_plugin_commands_scan m (name : string) st :
  register_plugin_commands m name st =
    (match (scan (instantiations m)).2 with
     | None => Ok tt
     | Some e => Raise e
     end,
     {| commands := bound_after (pair name <$> (scan (instantiations m)).1)
                      (commands st);
        world := world st;
        trace := trace st ++ replicate (length (scan (instantiations m)).1)
                               (registered_record name) |}).
Proof.
  revert st. induction m as [|[item_name item] m IH]; intros st.
  - simpl. unfold ret. by rewrite app_nil_r, state_eta.
  - rewrite instantiations_cons. simpl.
    destruct (qualifies item) as [[c|e]|]; simpl.
    + unfold bind at 1. unfold bind at 1. unfold lift, register_command,
        logging_info, emit. simpl. rewrite IH. simpl.
      destruct (scan (instantiations m)) as [cs err]. simpl.
      by rewrite <- app_assoc.
    + unfold bind, lift. by rewrite app_nil_r, state_eta.
    + unfold bind at 1. unfold ret at 1. apply IH.
Qed.

(** The loop body of [load_plugins] on any entry. *)
Lemma load_plugin_run entry st :
  load_plugin entry st =
    if is_pkg entry then
      match import_module entry with
      | Raise e =>
          match import_error_message e with
          | Some cause =>
              (Ok tt, add_trace st [import_failure_record (plugin_name entry) cause])
          | None => (Raise e, st)
          end
      | Ok m =>
          let cs := (scan (instantiations m)).1 in
          let st' :=
            {| commands := bound_after (pair (plugin_name entry) <$> cs) (commands st);
               world := world st;
               trace := trace st ++ replicate (length cs)
                                      (registered_record (plugin_name entry)) |} in
          match (scan (instantiations m)).2 with
          | None => (Ok tt, st')
          | Some e =>
              match import_error_message e with
              | Some cause =>
                  (Ok tt, add_trace st'
                            [import_failure_record (plugin_name entry) cause])
              | None => (Raise e, st')
              end
          end
      end
    else (Ok tt, st).
Proof.
  unfold load_plugin. destruct (is_pkg entry); [|done].
  destruct (import_module entry) as [m|e].
  - unfold try_except, bind at 1, lift.
    rewrite register_plugin_commands_scan.
    destruct (scan (instantiations m)) as [cs [e|]]; simpl; [|done].
    by destruct (import_error_message e).
  - unfold try_except, bind, lift. by destruct (import_error_message e).
Qed.

Lemma scan_until_failure cs e (calls : list (result (Command World))) :
  scan ((Ok <$> cs) ++ Raise e :: calls) = (cs, Some e).
Proof.
  induction cs as [|c cs IH]; [done|].
  rewrite fmap_cons. change (scan ((Ok c :: (Ok <$> cs)) ++ Raise e :: calls))
    with (let (cs', err) := scan ((Ok <$> cs) ++ Raise e :: calls) in (c :: cs', err)).
  by rewrite IH.
Qed.

Lemma scan_all_return cs : scan (Ok <$> cs) = (cs, @None exn).
Proof.
  induction cs as [|c cs IH]; [done|].
  rewrite fmap_cons. change (scan (Ok c :: (Ok <$> cs)))
    with (let (cs', err) := scan (Ok <$> cs) in (c :: cs', err)).
  by rewrite IH.
Qed.

Lemma load_each_app pre post st :
  load_each (pre ++ post) st = (load_each pre ;;; load_each post) st.
Proof.
  revert st. induction pre as [|entry pre IH]; intros st; [done|].
  change (load_each ((entry :: pre) ++ post) st)
    with ((load_plugin entry ;;; load_each (pre ++ post)) st).
  change (load_each (entry :: pre))
    with (load_plugin entry ;;; load_each pre).
  unfold bind. destruct (load_plugin entry st) as [[[]|e] st1]; [|done].
  rewrite IH. reflexivity.
Qed.

Lemma load_plugin_absorbed entry st :
  absorbed entry = true -> (load_plugin entry st).1 = Ok tt.
Proof.
  unfold absorbed. rewrite load_plugin_run. destruct (is_pkg entry); [|done].
  destruct (import_module entry) as [m|e].
  - destruct (scan (instantiations m)) as [cs [e|]]; simpl; [|done].
    destruct (import_error_message e); [done|].
    intros Habs. apply bool_decide_eq_true in Habs. by destruct Habs.
  - destruct (import_error_message e); [done|].
    intros Habs. apply bool_decide_eq_true in Habs. by destruct Habs.
Qed.

Lemma load_plugin_not_absorbed entry st :
  absorbed entry = false ->
  exists e, (load_plugin entry st).1 = Raise e /\ import_error_message e = None.
Proof.
  unfold absorbed. rewrite load_plugin_run. destruct (is_pkg entry); [|done].
  destruct (import_module entry) as [m|e].
  - destruct (scan (instantiations m)) as [cs [e|]]; simpl; [|done].
    destruct (import_error_message e) eqn:Hmsg; [|by exists e].
    intros Habs. apply bool_decide_eq_false in Habs. destruct Habs. by eexists.
  - destruct (import_error_message e) eqn:Hmsg; [|by exists e].
    intros Habs. apply bool_decide_eq_false in Habs. destruct Habs. by eexists.
Qed.

Lemma load_each_absorbed entries st :
  forallb absorbed entries = true -> (load_each entries st).1 = Ok tt.
Proof.
  revert st. induction entries as [|entry entries IH]; intros st; [done|].
  simpl. intros [Habs Hrest]%andb_prop. unfold bind.
  pose proof (load_plugin_absorbed entry st Habs) as Hok.
  destruct (load_plugin entry st) as [r st1]. simpl in Hok. subst r.
  by apply IH.
Qed.

(** Whatever an entry does, the loop body writes bindings under the entry's
    own name only, leaves the world alone, and adds log records only. *)
Lemma load_plugin_frame entry st :
  exists cs logs,
    (load_plugin entry st).2 =
      {| commands := bound_after (pair (plugin_name entry) <$> cs) (commands st);
         world := world st; trace := trace st ++ logs |}
    /\ forallb is_log logs = true
    /\ (is_pkg entry = false -> cs = []).
Proof.
  rewrite load_plugin_run. destruct (is_pkg entry).
  - destruct (import_module entry) as [m|e].
    + destruct (scan (instantiations m)) as [cs err]. simpl.
      assert (Hlogs : forall n, forallb is_log
                (replicate n (registered_record (World := World)
                                (plugin_name entry))) = true).
      { induction n; [done|]. simpl. done. }
      destruct err as [e|]; [destruct (import_error_message e)|].
      * exists cs, (replicate (length cs) (registered_record (plugin_name entry))
                    ++ [import_failure_record (plugin_name entry) s]).
        unfold add_trace. simpl. rewrite <- app_assoc. split; [done|]. split; [|done].
        rewrite forallb_app, Hlogs. done.
      * exists cs, (replicate (length cs) (registered_record (plugin_name entry))).
        by rewrite Hlogs.
      * exists cs, (replicate (length cs) (registered_record (plugin_name entry))).
        by rewrite Hlogs.
    + destruct (import_error_message e).
      * by exists [], [import_failure_record (plugin_name entry) s].
      * exists [], []. simpl. by rewrite app_nil_r, state_eta.
  - exists [], []. simpl. by rewrite app_nil_r, state_eta.
Qed.

Lemma load_each_frame entries st :
  world (load_each entries st).2 = world st
  /\ (exists logs, trace (load_each entries st).2 = trace st ++ logs
                   /\ forallb is_log logs = true)
  /\ (forall key,
        key ∉ plugin_name <$> filter (fun entry => is_pkg entry = true) entries ->
        commands (load_each entries st).2 !! key = commands st !! key).
Proof.
  revert st. induction entries as [|entry entries IH]; intros st.
  - simpl. split; [done|]. split; [|done]. exists []. by rewrite app_nil_r.
  - simpl. unfold bind.
    destruct (load_plugin_frame entry st) as (cs & logs & Hst & Hlogs & Hplain).
    destruct (load_plugin entry st) as [r st1]. simpl in Hst.
    assert (Hkeys : forall key,
      key ∉ plugin_name <$> filter (fun entry => is_pkg entry = true) (entry :: entries) ->
      commands st1 !! key = commands st !! key
      /\ key ∉ plugin_name <$> filter (fun entry => is_pkg entry = true) entries).
    { intros key Hkey. rewrite filter_cons in Hkey. subst st1. simpl.
      destruct (decide (is_pkg entry = true)) as [Hpkg|Hpkg].
      - rewrite fmap_cons in Hkey. apply not_elem_of_cons in Hkey as [Hne Hkey].
        split; [|done]. apply bound_after_other.
        rewrite <- list_fmap_compose. intros Hin.
        apply list_elem_of_fmap in Hin as (c & Heq & _). by apply Hne.
      - split; [|done]. apply not_true_is_false in Hpkg.
        by rewrite (Hplain Hpkg). }
    destruct r as [[]|e].
    + destruct (IH st1) as (Hw & (logs' & Ht & Hl) & Hc).
      split; [by rewrite Hw, Hst|]. split.
      * exists (logs ++ logs'). rewrite Ht, Hst. simpl.
        rewrite <- app_assoc. split; [done|]. by rewrite forallb_app, Hlogs, Hl.
      * intros key Hkey. destruct (Hkeys key Hkey) as [H1 H2].
        by rewrite Hc, H1.
    + simpl. split; [by rewrite Hst|]. split.
      * exists logs. by rewrite Hst.
      * intros key Hkey. by destruct (Hkeys key Hkey).
Qed.

Lemma instantiations_app (before after : pymodule World) :
  instantiations (before ++ after) = instantiations before ++ instantiations after.
Proof. unfold instantiations. apply omap_app. Qed.

(** X1: when the constructor of a qualifying class raises, the member scan
    stops there: the classes met before it stay registered and logged (the
    plugin's name is bound to the last of them), the classes after it are
    never instantiated, and the exception leaves
    [register_plugin_commands]. *)
Theorem member_scan_stops_at_first_failure
  (before after : pymodule World) (item_name name : string) e cs st :
  instantiations before = Ok <$> cs ->
  register_plugin_commands
    (before ++ (item_name, CommandSubclass (Raise e)) :: after) name st =
    (Raise e,
     {| commands := match last cs with
                    | Some c => <[name := c]> (commands st)
                    | None => commands st
                    end;
        world := world st;
        trace := trace st ++ replicate (length cs) (registered_record name) |}).
Proof.
  intros Hbefore. rewrite register_plugin_commands_scan.
  rewrite instantiations_app, instantiations_cons, Hbefore. simpl.
  rewrite scan_until_failure. simpl. by rewrite bound_after_same_key.
Qed.

(** X2: the [try] of [load_plugins] covers the member scan too, so an
    [ImportError] raised by a constructor, after a successful import, is
    logged as an import failure of the package; the classes registered
    before it stay bound, and discovery goes on with the next entry. *)
Theorem constructor_import_error_is_absorbed
  entry (before after : pymodule World) (item_name : string) e cause cs
  entries st :
  is_pkg entry = true ->
  import_module entry =
    Ok (before ++ (item_name, CommandSubclass (Raise e)) :: after) ->
  instantiations before = Ok <$> cs ->
  import_error_message e = Some cause ->
  load_plugins (Some (entry :: entries)) st =
    load_plugins (Some entries)
      {| commands := match last cs with
                     | Some c => <[plugin_name entry := c]> (commands st)
                     | None => commands st
                     end;
         world := world st;
         trace := trace st
                  ++ replicate (length cs) (registered_record (plugin_name entry))
                  ++ [import_failure_record (plugin_name entry) cause] |}.
Proof.
  intros Hpkg Himp Hbefore Hmsg. simpl. unfold bind.
  rewrite load_plugin_run, Hpkg, Himp.
  rewrite instantiations_app, instantiations_cons, Hbefore. simpl.
  rewrite scan_until_failure. simpl. rewrite Hmsg.
  unfold add_trace. simpl. by rewrite bound_after_same_key, <- app_assoc.
Qed.

(** X3: entries of the plugin directory that are not packages are never
    imported: discovery does exactly what it does on the packages alone,
    whatever importing the plain modules would have done. *)
Theorem discovery_skips_plain_modules entries st :
  load_plugins (Some entries) st =
    load_plugins (Some (filter (fun entry => is_pkg entry = true) entries)) st.
Proof.
  simpl. revert st. induction entries as [|entry entries IH]; intros st; [done|].
  rewrite filter_cons. destruct (decide (is_pkg entry = true)) as [Hpkg|Hpkg].
  - simpl. unfold bind. destruct (load_plugin entry st) as [[[]|e] st1]; [|done].
    apply IH.
  - apply not_true_is_false in Hpkg. simpl. unfold bind, load_plugin.
    rewrite Hpkg. unfold ret at 1. apply IH.
Qed.

(** X4: on any plugin directory, a missing one and one on which discovery
    fails part-way included, [load_plugins] leaves every key that is not
    the name of a package of the directory bound, or unbound, as it was. *)
Theorem discovery_only_binds_package_names
  (plugins_dir : option (list (plugin_entry World))) st (key : string) :
  key ∉ plugin_name <$> filter (fun entry => is_pkg entry = true)
                          (default [] plugins_dir) ->
  commands (load_plugins plugins_dir st).2 !! key = commands st !! key.
Proof.
  destruct plugins_dir as [entries|]; [|done].
  intros Hkey. by apply load_each_frame.
Qed.

Lemma load_each_lookup entries entry m cs c st :
  forallb absorbed entries = true ->
  NoDup (plugin_name <$> entries) ->
  entry ∈ entries ->
  is_pkg entry = true ->
  import_module entry = Ok m ->
  instantiations m = Ok <$> cs ->
  last cs = Some c ->
  commands (load_each entries st).2 !! plugin_name entry = Some c.
Proof.
  intros Habs Hnodup Hin Hpkg Himp Hcs Hlast. revert st Habs Hnodup Hin.
  induction entries as [|entry0 entries IH]; intros st Habs Hnodup Hin.
  - by apply elem_of_nil in Hin.
  - simpl in Habs. apply andb_prop in Habs as [Habs0 Habs].
    rewrite fmap_cons in Hnodup. apply NoDup_cons in Hnodup as [Hfresh Hnodup].
    simpl. unfold bind.
    pose proof (load_plugin_absorbed entry0 st Habs0) as Hok.
    destruct (load_plugin entry0 st) as [r st1] eqn:Hrun. simpl in Hok. subst r.
    apply elem_of_cons in Hin as [->|Hin]; [|by apply IH].
    destruct (load_each_frame entries st1) as (_ & _ & Hkeep).
    rewrite Hkeep.
    + rewrite (load_plugin_valid entry0 m cs) in Hrun by done.
      injection Hrun as <-. simpl.
      rewrite bound_after_same_key, Hlast. apply lookup_insert_eq.
    + intros Hname. apply Hfresh.
      apply list_elem_of_fmap in Hname as (other & Heq & Hother).
      apply list_elem_of_filter in Hother as [_ Hother].
      apply list_elem_of_fmap. by exists other.
Qed.

(** X5: on a plugin directory of any length in which every failure is one
    that the [except ImportError] clause takes, discovery returns normally,
    and each package of the directory that imports and whose constructors
    all return ends bound, under its own name, to the instance of its last
    qualifying class. *)
Theorem discovery_registers_every_valid_package entries entry m cs c st :
  forallb absorbed entries = true ->
  NoDup (plugin_name <$> entries) ->
  entry ∈ entries ->
  is_pkg entry = true ->
  import_module entry = Ok m ->
  instantiations m = Ok <$> cs ->
  last cs = Some c ->
  (load_plugins (Some entries) st).1 = Ok tt
  /\ commands (load_plugins (Some entries) st).2 !! plugin_name entry = Some c.
Proof.
  intros Habs Hnodup Hin Hpkg Himp Hcs Hlast. split.
  - by apply load_each_absorbed.
  - by apply (load_each_lookup entries entry m cs c).
Qed.

(** X6: [start] calls [load_plugins] before its [try]: when discovery meets
    a package whose failure the [except ImportError] clause does not take,
    [start] ends with that exception in the state discovery had reached.
    The packages after it are not scanned, the start record is not logged,
    no line is read, and the shutdown record of the [finally] is not
    logged. *)
Theorem discovery_failure_skips_session pre bad post
  (stdin : list stdin_event) st :
  forallb absorbed pre = true ->
  absorbed bad = false ->
  start (Some (pre ++ bad :: post)) stdin st =
    load_plugins (Some (pre ++ [bad])) st
  /\ exists e, (start (Some (pre ++ bad :: post)) stdin st).1 = Raise e
               /\ import_error_message e = None.
Proof.
  intros Hpre Hbad.
  pose proof (load_each_absorbed pre st Hpre) as Hok.
  destruct (load_each pre st) as [r st1] eqn:Hpre_run. simpl in Hok. subst r.
  destruct (load_plugin_not_absorbed bad st1 Hbad) as (e & He & Hmsg).
  destruct (load_plugin bad st1) as [r st2] eqn:Hbad_run. simpl in He. subst r.
  assert (Hscan : load_plugins (Some (pre ++ [bad])) st = (Raise e, st2)).
  { simpl. rewrite load_each_app. unfold bind at 1. rewrite Hpre_run.
    simpl. unfold bind. by rewrite Hbad_run. }
  assert (Hstart : start (Some (pre ++ bad :: post)) stdin st = (Raise e, st2)).
  { unfold start. unfold bind at 1. simpl. rewrite load_each_app.
    unfold bind at 1. rewrite Hpre_run.
    change (load_each (bad :: post)) with (load_plugin bad ;;; load_each post).
    unfold bind at 1. by rewrite Hbad_run. }
  rewrite Hstart, Hscan. split; [done|]. by exists e.
Qed.

End DiscoveryScan.

Lemma member_scan_stops_at_first_failure_witness :
  register_plugin_commands
    ([("AGreet", CommandSubclass (Ok greet))]
     ++ ("Base", CommandSubclass
           (Raise (OtherException "TypeError"
              "Can't instantiate abstract class Base with abstract method execute")))
        :: [("Command", CommandABC); ("Zed", CommandSubclass (Ok farewell))])
    "half" (App_init 0%nat) =
    (Raise (OtherException "TypeError"
              "Can't instantiate abstract class Base with abstract method execute"),
     {| commands := match last [greet] with
                    | Some c => <["half" := c]> (commands (App_init 0%nat))
                    | None => commands (App_init 0%nat)
                    end;
        world := 0%nat;
        trace := trace (App_init 0%nat)
                 ++ replicate (length [greet]) (registered_record "half") |}).
Proof.
  apply (member_scan_stops_at_first_failure
           [("AGreet", CommandSubclass (Ok greet))]
           [("Command", CommandABC); ("Zed", CommandSubclass (Ok farewell))]
           "Base" "half" _ [greet] (App_init 0%nat)).
  reflexivity.
Defined.

Lemma constructor_import_error_is_absorbed_witness :
  load_plugins (Some [lazy_import_plugin; greet_plugin]) (App_init 0%nat) =
    load_plugins (Some [greet_plugin])
      {| commands := match last [greet] with
                     | Some c => <["lazy" := c]> (commands (App_init 0%nat))
                     | None => commands (App_init 0%nat)
                     end;
         world := 0%nat;
         trace := trace (App_init 0%nat)
                  ++ replicate (length [greet]) (registered_record "lazy")
                  ++ [import_failure_record "lazy" "No module named 'yaml'"] |}.
Proof.
  apply (constructor_import_error_is_absorbed
           lazy_import_plugin [("AGreet", CommandSubclass (Ok greet))] []
           "Lazy" (ModuleNotFoundError "No module named 'yaml'")
           "No module named 'yaml'" [greet] [greet_plugin] (App_init 0%nat)).
  - reflexivity.
  - reflexivity.
  - reflexivity.
  - reflexivity.
Defined.

Lemma discovery_registers_every_valid_package_witness :
  let entries := [helper_module; missing_dependency_plugin; greet_plugin;
                  lazy_import_plugin; two_command_plugin] in
  (load_plugins (Some entries) (App_init 0%nat)).1 = Ok tt
  /\ commands (load_plugins (Some entries) (App_init 0%nat)).2 !! "talk"
     = Some greet.
Proof.
  apply (discovery_registers_every_valid_package
           [helper_module; missing_dependency_plugin; greet_plugin;
            lazy_import_plugin; two_command_plugin]
           two_command_plugin two_command_module [farewell; greet] greet
           (App_init 0%nat)).
  - reflexivity.
  - compute_done.
  - repeat constructor.
  - reflexivity.
  - reflexivity.
  - reflexivity.
  - reflexivity.
Defined.

Lemma discovery_failure_skips_session_witness :
  start (Some ([missing_dependency_plugin; greet_plugin]
               ++ half_abstract_plugin :: [two_command_plugin]))
        [Line "greet"] (App_init 0%nat) =
    load_plugins (Some ([missing_dependency_plugin; greet_plugin]
                        ++ [half_abstract_plugin])) (App_init 0%nat)
  /\ exists e,
       (start (Some ([missing_dependency_plugin; greet_plugin]
                     ++ half_abstract_plugin :: [two_command_plugin]))
              [Line "greet"] (App_init 0%nat)).1 = Raise e
       /\ import_error_message e = None.
Proof.
  apply (discovery_failure_skips_session
           [missing_dependency_plugin; greet_plugin] half_abstract_plugin
           [two_command_plugin] [Line "greet"] (App_init 0%nat)).
  - reflexivity.
  - reflexivity.
Defined.

(** ** More on strings *)

Lemma rstrip_idempotent s : rstrip (rstrip s) = rstrip s.
Proof.
  induction s as [|c s IH]; [done|]. simpl.
  destruct (rstrip s) as [|d kept] eqn:Hs.
  - destruct (isspace c) eqn:Hc; [done|]. simpl. by rewrite Hc.
  - change (rstrip (String c (String d kept)))
      with (match rstrip (String d kept) with
            | EmptyString => if isspace c then EmptyString else String c EmptyString
            | kept' => String c kept'
            end).
    by rewrite IH.
Qed.

Lemma lstrip_head s :
  match lstrip s with
  | EmptyString => True
  | String c _ => isspace c = false
  end.
Proof.
  induction s as [|c s IH]; [done|]. simpl.
  by destruct (isspace c) eqn:Hc.
Qed.

Lemma rstrip_keeps_head c s :
  isspace c = false -> exists kept, rstrip (String c s) = String c kept.
Proof.
  intros Hc. simpl. destruct (rstrip s); rewrite ?Hc; by eexists.
Qed.

(** Stripping twice is stripping once: a stripped text has no white space
    left at either end. *)
Lemma strip_idempotent s : strip (strip s) = strip s.
Proof.
  unfold strip. pose proof (lstrip_head s) as Hhead.
  destruct (lstrip s) as [|c t] eqn:Hl; [done|].
  destruct (rstrip_keeps_head c t Hhead) as [kept Hkept].
  rewrite Hkept. simpl lstrip. rewrite Hhead. rewrite <- Hkept.
  apply rstrip_idempotent.
Qed.

Lemma lower_char_e c : lower_char c = "e"%char -> c = "e"%char \/ c = "E"%char.
Proof.
  destruct c as [[] [] [] [] [] [] [] []]; vm_compute; intros H;
    first [discriminate H | by left | by right].
Qed.

Lemma lower_char_x c : lower_char c = "x"%char -> c = "x"%char \/ c = "X"%char.
Proof.
  destruct c as [[] [] [] [] [] [] [] []]; vm_compute; intros H;
    first [discriminate H | by left | by right].
Qed.

Lemma lower_char_i c : lower_char c = "i"%char -> c = "i"%char \/ c = "I"%char.
Proof.
  destruct c as [[] [] [] [] [] [] [] []]; vm_compute; intros H;
    first [discriminate H | by left | by right].
Qed.

Lemma lower_char_t c : lower_char c = "t"%char -> c = "t"%char \/ c = "T"%char.
Proof.
  destruct c as [[] [] [] [] [] [] [] []]; vm_compute; intros H;
    first [discriminate H | by left | by right].
Qed.

Lemma lower_sentinel s : lower s = "exit" <-> In s sentinel_spellings.
Proof.
  split.
  - destruct s as [|c1 [|c2 [|c3 [|c4 [|c5 s]]]]]; try discriminate.
    simpl. intros [= H1 H2 H3 H4].
    destruct (lower_char_e _ H1) as [-> | ->];
      destruct (lower_char_x _ H2) as [-> | ->];
      destruct (lower_char_i _ H3) as [-> | ->];
      destruct (lower_char_t _ H4) as [-> | ->];
      vm_compute; repeat first [left; reflexivity | right].
  - intros Hin. vm_compute in Hin.
    repeat (destruct Hin as [<- | Hin]; [reflexivity|]). destruct Hin.
Qed.

(** ** Whole sessions *)

Section SessionFacts.

Context {World : Type}.
Implicit Types (st : state World) (c : Command World)
  (stdin rest : list stdin_event) (raw key : string) (raws : list string).

Lemma start_try_cong stdin stdin' st st' :
  dispatch_loop stdin st = dispatch_loop stdin' st' ->
  start_try stdin st = start_try stdin' st'.
Proof. intros Heq. unfold start_try, try_finally, try_except. by rewrite Heq. Qed.

Lemma add_trace_add_trace st (evs evs' : list (event World)) :
  add_trace (add_trace st evs) evs' = add_trace st (evs ++ evs').
Proof. unfold add_trace. simpl. by rewrite <- app_assoc. Qed.

Lemma dispatch_loop_found raw rest c text w' st :
  commands st !! strip raw = Some c ->
  execute c (world st) = (Ok text, w') ->
  lower (strip raw) <> "exit" ->
  dispatch_loop (Line raw :: rest) st =
    dispatch_loop rest
      {| commands := commands st; world := w';
         trace := trace st ++ [EvPrompt ">>> "; EvDispatch (strip raw);
                               EvExecute c; EvPrint text] |}.
Proof.
  intros Hget Hrun Hother. rewrite dispatch_loop_line.
  rewrite handle_line_dispatches by done. unfold bind at 1.
  rewrite (execute_command_bound (strip raw) c) by done. simpl. rewrite Hrun.
  unfold bind, print, emit. simpl. by rewrite <- !app_assoc.
Qed.

Lemma dispatch_loop_command_raises raw rest c e w' st :
  commands st !! strip raw = Some c ->
  execute c (world st) = (Raise e, w') ->
  lower (strip raw) <> "exit" ->
  dispatch_loop (Line raw :: rest) st =
    (Raise e,
     {| commands := commands st; world := w';
        trace := trace st ++ [EvPrompt ">>> "; EvDispatch (strip raw);
                              EvExecute c] |}).
Proof.
  intros Hget Hrun Hother. rewrite dispatch_loop_line.
  rewrite handle_line_dispatches by done. unfold bind at 1.
  rewrite (execute_command_bound (strip raw) c) by done. simpl. rewrite Hrun.
  by rewrite <- !app_assoc.
Qed.

Lemma dispatch_loop_not_found raw rest st :
  commands st !! strip raw = None ->
  lower (strip raw) <> "exit" ->
  dispatch_loop (Line raw :: rest) st =
    dispatch_loop rest (add_trace st (not_found_turn raw)).
Proof.
  intros Hget Hother. rewrite dispatch_loop_line.
  rewrite handle_line_dispatches by done. unfold bind at 1.
  rewrite execute_command_unbound by done.
  unfold bind, print, emit, add_trace, not_found_turn. simpl.
  by rewrite <- !app_assoc.
Qed.

Lemma dispatch_loop_unknown_lines raws rest st :
  Forall (fun raw => lower (strip raw) <> "exit"
                     /\ commands st !! strip raw = None) raws ->
  dispatch_loop ((Line <$> raws) ++ rest) st =
    dispatch_loop rest (add_trace st (raws ≫= not_found_turn)).
Proof.
  revert st. induction raws as [|raw raws IH]; intros st Hall.
  - simpl. unfold add_trace. by rewrite app_nil_r, state_eta.
  - apply Forall_cons in Hall as [[Hother Hget] Hall].
    rewrite fmap_cons. simpl app.
    rewrite dispatch_loop_not_found by done.
    rewrite IH by done. by rewrite add_trace_add_trace.
Qed.

Lemma start_try_end_of_input st :
  start_try [] st =
    (Raise (EOFError "EOF when reading a line"),
     add_trace st [EvPrompt ">>> "; EvLog INFO "Application shutdown."]).
Proof.
  unfold start_try, try_finally, try_except, add_trace. simpl.
  by rewrite <- app_assoc.
Qed.

(** X7: a line whose stripped text is not a spelling of the sentinel and
    is bound to a command that returns is answered by printing exactly the
    text the command returned, and the session goes on with the next line;
    the registry is as before and the plugins' world is the one the command
    left. *)
Theorem loop_prints_result_and_continues raw rest c text w' st :
  commands st !! strip raw = Some c ->
  execute c (world st) = (Ok text, w') ->
  lower (strip raw) <> "exit" ->
  start_try (Line raw :: rest) st =
    start_try rest
      {| commands := commands st; world := w';
         trace := trace st ++ [EvPrompt ">>> "; EvDispatch (strip raw);
                               EvExecute c; EvPrint text] |}.
Proof.
  intros Hget Hrun Hother. by apply start_try_cong, dispatch_loop_found.
Qed.

(** X8: lines whose stripped text is bound to nothing do not end the
    session: each one is answered by the ERROR record and the printed
    message "No such command: <key>", nothing else changes, and the session
    goes on with the lines after them. *)
Theorem unknown_lines_are_reported_and_skipped raws rest st :
  Forall (fun raw => lower (strip raw) <> "exit"
                     /\ commands st !! strip raw = None) raws ->
  start_try ((Line <$> raws) ++ rest) st =
    start_try rest (add_trace st (raws ≫= not_found_turn)).
Proof.
  intros Hall. by apply start_try_cong, dispatch_loop_unknown_lines.
Qed.

(** X9: without a plugins directory the program still runs: discovery logs
    one WARNING, the registry stays empty, every line that is not the
    sentinel is answered "No such command", and when the input ends without
    the sentinel the [EOFError] of [input] is not handled: the shutdown
    record is logged and the process exits with status 1. *)
Theorem session_without_plugins_directory raws (w : World) :
  Forall (fun raw => lower (strip raw) <> "exit") raws ->
  main None (Line <$> raws) w =
    (1,
     add_trace (App_init w)
       ([EvLog WARNING "Plugins directory 'app/plugins' not found.";
         EvLog INFO "Application started. Type 'exit' to exit."]
        ++ (raws ≫= not_found_turn)
        ++ [EvPrompt ">>> "; EvLog INFO "Application shutdown."])).
Proof.
  intros Hall. unfold main, start. unfold bind at 1. simpl.
  unfold bind at 1. simpl.
  rewrite <- (app_nil_r (Line <$> raws)).
  match goal with |- context [start_try _ ?s] =>
    rewrite (start_try_cong _ [] s (add_trace s (raws ≫= not_found_turn))) end.
  - rewrite start_try_end_of_input. simpl. unfold add_trace. simpl.
    reflexivity.
  - apply dispatch_loop_unknown_lines.
    eapply Forall_impl; [exact Hall|]. intros raw Hother. split; [done|].
    simpl. apply lookup_empty.
Qed.


Lemma execute_command_dispatched key st :
  exists r w' ev,
    execute_command key st =
      (r, {| commands := commands st; world := w';
             trace := trace st ++ [EvDispatch key; ev] |})
    /\ dispatched [ev] = [].
Proof.
  destruct (commands st !! key) as [c|] eqn:Hget.
  - rewrite (execute_command_bound key c) by done.
    destruct (execute c (world st)) as [r w'].
    by exists r, w', (EvExecute c).
  - rewrite execute_command_unbound by done.
    by exists (Ok ("No such command: " +:+ key)), (world st),
              (EvLog ERROR ("No such command: " +:+ key)).
Qed.

Lemma dispatched_app (tr tr' : list (event World)) :
  dispatched (tr ++ tr') = dispatched tr ++ dispatched tr'.
Proof. apply omap_app. Qed.

Lemma dispatch_loop_dispatched stdin st :
  exists raws,
    (Line <$> raws) `prefix_of` stdin
    /\ dispatched (trace (dispatch_loop stdin st).2) =
         dispatched (trace st) ++ (strip <$> raws)
    /\ Forall (fun raw => lower (strip raw) <> "exit") raws.
Proof.
  revert st. induction stdin as [|[raw|] rest IH]; intros st.
  - exists []. split; [done|]. split; [|done].
    simpl. by rewrite dispatched_app, !app_nil_r.
  - rewrite dispatch_loop_line.
    destruct (decide (lower (strip raw) = "exit")) as [Hexit|Hother].
    + rewrite handle_line_sentinel by done. exists [].
      split; [apply prefix_nil|]. split; [|done].
      simpl. by rewrite <- app_assoc, dispatched_app, !app_nil_r.
    + rewrite handle_line_dispatches by done. unfold bind at 1.
      destruct (execute_command_dispatched (strip raw)
                  (add_trace st [EvPrompt ">>> "]))
        as (r & w' & ev & -> & Hev).
      assert (Hturn : forall tail : list (event World),
        dispatched tail = [] ->
        dispatched (((trace st ++ [EvPrompt ">>> "])
                     ++ [EvDispatch (strip raw); ev]) ++ tail)
        = dispatched (trace st) ++ [strip raw]).
      { intros tail Htail. rewrite !dispatched_app, Htail, app_nil_r.
        rewrite <- app_assoc. f_equal.
        change (dispatched [EvDispatch (strip raw); ev])
          with (strip raw :: dispatched [ev]). by rewrite Hev. }
      destruct r as [text|e].
      * unfold bind at 1, print, emit. simpl.
        match goal with |- context [dispatch_loop rest ?s] =>
          destruct (IH s) as (raws & Hpre & Hd & Hall) end.
        exists (raw :: raws). split; [by apply prefix_cons|].
        split; [|by constructor].
        rewrite Hd. simpl trace. rewrite (Hturn [EvPrint text]) by done.
        by rewrite <- app_assoc.
      * exists [raw]. split; [apply prefix_cons, prefix_nil|].
        split; [|by repeat constructor].
        simpl. rewrite <- (app_nil_r (_ ++ [EvDispatch (strip raw); ev])).
        by rewrite Hturn.
  - exists []. split; [apply prefix_nil|]. split; [|done].
    simpl. by rewrite dispatched_app, !app_nil_r.
Qed.

(** Around the loop, the [try] statement only logs. *)
Lemma start_try_logs stdin st :
  exists logs,
    trace (start_try stdin st).2 = trace (dispatch_loop stdin st).2 ++ logs
    /\ dispatched logs = [].
Proof.
  unfold start_try, try_finally, try_except.
  destruct (dispatch_loop stdin st) as [[[]|e] st1].
  - by exists [EvLog INFO "Application shutdown."].
  - destruct e; try by exists [EvLog INFO "Application shutdown."].
    exists [EvLog INFO "Application interrupted and exiting gracefully.";
            EvLog INFO "Application shutdown."].
    simpl. by rewrite <- app_assoc.
Qed.

(** X11: the keys handed to the registry during a session are exactly the
    stripped texts of the lines read, in order, for a run of lines at the
    head of the input; each of them is free of white space at both ends
    and is not a spelling of the sentinel.  So a command registered under
    a key with outer white space, or under any spelling of [exit], is never
    dispatched. *)
Theorem dispatched_keys_are_stripped_lines stdin st :
  exists raws,
    (Line <$> raws) `prefix_of` stdin
    /\ dispatched (trace (start_try stdin st).2) =
         dispatched (trace st) ++ (strip <$> raws)
    /\ Forall (fun key => strip key = key /\ lower key <> "exit")
              (strip <$> raws).
Proof.
  destruct (dispatch_loop_dispatched stdin st) as (raws & Hpre & Hd & Hall).
  exists raws. split; [done|]. split.
  - destruct (start_try_logs stdin st) as (logs & -> & Hlogs).
    by rewrite dispatched_app, Hlogs, app_nil_r.
  - apply Forall_fmap. eapply Forall_impl; [exact Hall|].
    intros raw Hother. simpl. split; [apply strip_idempotent|done].
Qed.

(** X12: an operator interrupt that arrives while a command is executing
    takes the same path as one at the prompt: the [except] clause logs its
    INFO record, the unbound name [ys] raises [NameError], the shutdown
    record is logged, and the process exits with status 1. *)
Theorem interrupt_inside_command raw rest c w' st :
  commands st !! strip raw = Some c ->
  execute c (world st) = (Raise KeyboardInterrupt, w') ->
  lower (strip raw) <> "exit" ->
  start_try (Line raw :: rest) st =
    (Raise (NameError "name 'ys' is not defined"),
     {| commands := commands st; world := w';
        trace := trace st ++
          [EvPrompt ">>> "; EvDispatch (strip raw); EvExecute c;
           EvLog INFO "Application interrupted and exiting gracefully.";
           EvLog INFO "Application shutdown."] |})
  /\ exit_status (start_try (Line raw :: rest) st).1 = 1.
Proof.
  intros Hget Hrun Hother.
  assert (Hend : start_try (Line raw :: rest) st =
    (Raise (NameError "name 'ys' is not defined"),
     {| commands := commands st; world := w';
        trace := trace st ++
          [EvPrompt ">>> "; EvDispatch (strip raw); EvExecute c;
           EvLog INFO "Application interrupted and exiting gracefully.";
           EvLog INFO "Application shutdown."] |})).
  { unfold start_try, try_finally, try_except.
    rewrite (dispatch_loop_command_raises raw rest c KeyboardInterrupt w') by done.
    simpl. by rewrite <- !app_assoc. }
  by rewrite Hend.
Qed.

(** X13: any exception other than [KeyboardInterrupt] that a command
    raises, a [SystemExit] included, ends the session: it passes the
    [except KeyboardInterrupt] clause, the shutdown record is logged, no
    later line is read, and the exception leaves [start]; unless it is a
    [SystemExit], the process exits with status 1. *)
Theorem command_exception_ends_session raw rest c e w' st :
  commands st !! strip raw = Some c ->
  execute c (world st) = (Raise e, w') ->
  lower (strip raw) <> "exit" ->
  e <> KeyboardInterrupt ->
  start_try (Line raw :: rest) st =
    (Raise e,
     {| commands := commands st; world := w';
        trace := trace st ++
          [EvPrompt ">>> "; EvDispatch (strip raw); EvExecute c;
           EvLog INFO "Application shutdown."] |})
  /\ ((forall code, e <> SystemExit code) ->
      exit_status (start_try (Line raw :: rest) st).1 = 1).
Proof.
  intros Hget Hrun Hother Hnot.
  assert (Hend : start_try (Line raw :: rest) st =
    (Raise e,
     {| commands := commands st; world := w';
        trace := trace st ++
          [EvPrompt ">>> "; EvDispatch (strip raw); EvExecute c;
           EvLog INFO "Application shutdown."] |})).
  { unfold start_try, try_finally, try_except.
    rewrite (dispatch_loop_command_raises raw rest c e w') by done.
    destruct e; try done; simpl; by rewrite <- !app_assoc. }
  rewrite Hend. split; [done|]. intros Hcode.
  destruct e; try done. by destruct (Hcode code).
Qed.

Lemma dispatch_loop_first_key raw rest st :
  lower (strip raw) <> "exit" ->
  exists keys,
    dispatched (trace (dispatch_loop (Line raw :: rest) st).2) =
      dispatched (trace st) ++ strip raw :: keys.
Proof.
  intros Hother. rewrite dispatch_loop_line.
  rewrite handle_line_dispatches by done. unfold bind at 1.
  destruct (execute_command_dispatched (strip raw)
              (add_trace st [EvPrompt ">>> "]))
    as (r & w' & ev & -> & Hev).
  assert (Hturn : dispatched ((trace st ++ [EvPrompt ">>> "])
                              ++ [EvDispatch (strip raw); ev])
                  = dispatched (trace st) ++ [strip raw]).
  { rewrite !dispatched_app, app_nil_r. f_equal.
    change (dispatched [EvDispatch (strip raw); ev])
      with (strip raw :: dispatched [ev]). by rewrite Hev. }
  destruct r as [text|e].
  - unfold bind at 1, print, emit. simpl.
    match goal with |- context [dispatch_loop rest ?s] =>
      destruct (dispatch_loop_dispatched rest s) as (raws & _ & -> & _) end.
    exists (strip <$> raws). simpl trace.
    rewrite dispatched_app, Hturn, app_nil_r. by rewrite <- app_assoc.
  - exists []. simpl. by rewrite Hturn.
Qed.

(** X14: the loop takes its exit branch for a line exactly when the
    stripped line is one of the sixteen upper- and lower-case spellings of
    [exit]; every other line, the empty one included, is dispatched: its
    stripped text is the next key handed to [execute_command]. *)
Theorem exit_branch_for_sentinel_spellings_only raw rest st :
  (In (strip raw) sentinel_spellings <->
   dispatch_loop (Line raw :: rest) st =
     (Raise (SystemExit 0),
      add_trace st [EvPrompt ">>> "; EvLog INFO "Application exit."]))
  /\ (~ In (strip raw) sentinel_spellings ->
      exists keys,
        dispatched (trace (dispatch_loop (Line raw :: rest) st).2) =
          dispatched (trace st) ++ strip raw :: keys).
Proof.
  rewrite <- lower_sentinel. split; [split|].
  - intros Hexit. rewrite dispatch_loop_line, handle_line_sentinel by done.
    by rewrite add_trace_add_trace.
  - intros Hrun.
    destruct (decide (lower (strip raw) = "exit")) as [Hexit|Hother]; [done|].
    destruct (dispatch_loop_first_key raw rest st Hother) as [keys Hkeys].
    rewrite Hrun in Hkeys. simpl in Hkeys. rewrite dispatched_app in Hkeys.
    apply app_inv_head in Hkeys. discriminate Hkeys.
  - intros Hother. by apply dispatch_loop_first_key.
Qed.

(** X15: let every failure in the plugin directory be one that the
    [except ImportError] clause takes and let the names in it be distinct.
    A package of the directory that imports, whose qualifying classes all
    construct, and whose name is not a spelling of the sentinel, is then
    run by typing its name: a first line that strips to the name executes
    the instance of the package's last qualifying class and, when that
    command returns, prints its text, and the session goes on from the
    state discovery left. *)
Theorem discovered_plugin_is_dispatchable
  (entries : list (plugin_entry World)) (entry : plugin_entry World)
  (m : pymodule World) cs c raw text w' rest st :
  forallb absorbed entries = true ->
  NoDup (plugin_name <$> entries) ->
  entry ∈ entries ->
  is_pkg entry = true ->
  import_module entry = Ok m ->
  instantiations m = Ok <$> cs ->
  last cs = Some c ->
  strip raw = plugin_name entry ->
  lower (plugin_name entry) <> "exit" ->
  execute c (world (load_plugins (Some entries) st).2) = (Ok text, w') ->
  start (Some entries) (Line raw :: rest) st =
    start_try rest
      {| commands := commands (load_plugins (Some entries) st).2;
         world := w';
         trace := trace (load_plugins (Some entries) st).2
                  ++ [EvLog INFO "Application started. Type 'exit' to exit.";
                      EvPrompt ">>> "; EvDispatch (plugin_name entry);
                      EvExecute c; EvPrint text] |}.
Proof.
  intros Habs Hnodup Hin Hpkg Himp Hcs Hlast Hraw Hother Hrun.
  pose proof (load_each_absorbed entries st Habs) as Hok.
  pose proof (load_each_lookup entries entry m cs c st
                Habs Hnodup Hin Hpkg Himp Hcs Hlast) as Hget.
  unfold start. unfold bind at 1. simpl load_plugins in *.
  destruct (load_each entries st) as [r found]. simpl in Hok, Hget, Hrun.
  subst r. unfold bind at 1. simpl.
  erewrite start_try_cong; [reflexivity|].
  rewrite (dispatch_loop_found raw rest c text w');
    rewrite ?Hraw; simpl; try done.
  by rewrite <- !app_assoc.
Qed.

End SessionFacts.

(** ** Start-up *)

Section StartupFacts.

Context {World : Type}.


End StartupFacts.

Lemma loop_prints_result_and_continues_witness :
  let st := (register_command "greet" greet (App_init 0%nat)).2 in
  start_try [Line "  greet "; Line "exit"] st =
    start_try [Line "exit"]
      {| commands := commands st; world := 1%nat;
         trace := trace st ++ [EvPrompt ">>> "; EvDispatch (strip "  greet ");
                               EvExecute greet; EvPrint "hello"] |}.
Proof.
  apply (loop_prints_result_and_continues
           "  greet " [Line "exit"] greet "hello" 1%nat
           (register_command "greet" greet (App_init 0%nat)).2).
  - reflexivity.
  - reflexivity.
  - vm_compute. discriminate.
Defined.

Lemma unknown_lines_are_reported_and_skipped_witness :
  let st := (register_command "greet" greet (App_init 0%nat)).2 in
  start_try ((Line <$> ["Greet"; ""; "help me"]) ++ [Line "exit"]) st =
    start_try [Line "exit"]
      (add_trace st (["Greet"; ""; "help me"] ≫= not_found_turn)).
Proof.
  apply (unknown_lines_are_reported_and_skipped
           ["Greet"; ""; "help me"] [Line "exit"]
           (register_command "greet" greet (App_init 0%nat)).2).
  repeat constructor; vm_compute; discriminate.
Defined.

Lemma session_without_plugins_directory_witness :
  main None (Line <$> ["greet"; "help"]) 0%nat =
    (1,
     add_trace (App_init 0%nat)
       ([EvLog WARNING "Plugins directory 'app/plugins' not found.";
         EvLog INFO "Application started. Type 'exit' to exit."]
        ++ (["greet"; "help"] ≫= not_found_turn)
        ++ [EvPrompt ">>> "; EvLog INFO "Application shutdown."])).
Proof.
  apply (session_without_plugins_directory ["greet"; "help"] 0%nat).
  repeat constructor; vm_compute; discriminate.
Defined.

Lemma interrupt_inside_command_witness :
  let st := (register_command "wait" stalled (App_init 0%nat)).2 in
  start_try [Line "wait"; Line "exit"] st =
    (Raise (NameError "name 'ys' is not defined"),
     {| commands := commands st; world := 1%nat;
        trace := trace st ++
          [EvPrompt ">>> "; EvDispatch (strip "wait"); EvExecute stalled;
           EvLog INFO "Application interrupted and exiting gracefully.";
           EvLog INFO "Application shutdown."] |})
  /\ exit_status (start_try [Line "wait"; Line "exit"] st).1 = 1.
Proof.
  apply (interrupt_inside_command
           "wait" [Line "exit"] stalled 1%nat
           (register_command "wait" stalled (App_init 0%nat)).2).
  - reflexivity.
  - reflexivity.
  - vm_compute. discriminate.
Defined.

Lemma command_exception_ends_session_witness :
  let st := (register_command "boom" boom (App_init 0%nat)).2 in
  let e := OtherException "ExecutionError" "boom failed" in
  start_try [Line "boom"; Line "greet"] st =
    (Raise e,
     {| commands := commands st; world := 1%nat;
        trace := trace st ++
          [EvPrompt ">>> "; EvDispatch (strip "boom"); EvExecute boom;
           EvLog INFO "Application shutdown."] |})
  /\ ((forall code, e <> SystemExit code) ->
      exit_status (start_try [Line "boom"; Line "greet"] st).1 = 1).
Proof.
  apply (command_exception_ends_session
           "boom" [Line "greet"] boom
           (OtherException "ExecutionError" "boom failed") 1%nat
           (register_command "boom" boom (App_init 0%nat)).2).
  - reflexivity.
  - reflexivity.
  - vm_compute. discriminate.
  - discriminate.
Defined.

Lemma discovered_plugin_is_dispatchable_witness :
  let entries := [helper_module; missing_dependency_plugin; greet_plugin;
                  lazy_import_plugin; two_command_plugin] in
  start (Some entries) [Line " talk"; Line "exit"] (App_init 0%nat) =
    start_try [Line "exit"]
      {| commands := commands (load_plugins (Some entries) (App_init 0%nat)).2;
         world := 1%nat;
         trace := trace (load_plugins (Some entries) (App_init 0%nat)).2
                  ++ [EvLog INFO "Application started. Type 'exit' to exit.";
                      EvPrompt ">>> "; EvDispatch "talk";
                      EvExecute greet; EvPrint "hello"] |}.
Proof.
  apply (discovered_plugin_is_dispatchable
           [helper_module; missing_dependency_plugin; greet_plugin;
            lazy_import_plugin; two_command_plugin]
           two_command_plugin two_command_module [farewell; greet] greet
           " talk" "hello" 1%nat [Line "exit"] (App_init 0%nat)).
  - reflexivity.
  - compute_done.
  - repeat constructor.
  - reflexivity.
  - reflexivity.
  - reflexivity.
  - reflexivity.
  - reflexivity.
  - vm_compute. discriminate.
  - reflexivity.
Defined.

(** A key that names a plain module, not a package, keeps its binding
    through a discovery that fails part-way. *)
Lemma discovery_only_binds_package_names_witness :
  commands (load_plugins
              (Some [helper_module; half_abstract_plugin; greet_plugin])
              (register_command "helpers" farewell (App_init 0%nat)).2).2
    !! "helpers"
  = commands (register_command "helpers" farewell (App_init 0%nat)).2
      !! "helpers".
Proof.
  apply (discovery_only_binds_package_names
           (Some [helper_module; half_abstract_plugin; greet_plugin])
           (register_command "helpers" farewell (App_init 0%nat)).2 "helpers").
  compute_done.
Defined.


Example settings_keep_empty_environment :
  setdefault "ENVIRONMENT" "PRODUCTION" (environ plain_host) !! "ENVIRONMENT"
  = Some "".
Proof. reflexivity. Qed.

(** ** Independence of keys *)

Section KeyFacts.

Context {World : Type}.

(** X17: registering a command under one key does not change what the
    dispatch of any other key does: the same command runs or the same
    "No such command" message is logged and returned, with the same
    effect on the world and the trace. *)
Theorem registration_leaves_other_keys_alone
  (key other : string) (c : Command World) (st : state World) :
  key <> other ->
  (register_command key c ;;; execute_command other) st =
    (let (r, st') := execute_command other st in
     (r, {| commands := <[key := c]> (commands st');
            world := world st'; trace := trace st' |})).
Proof.
  intros Hne. unfold bind at 1. simpl.
  destruct (commands st !! other) as [c'|] eqn:Hget.
  - rewrite (execute_command_bound other c')
      by (simpl; by rewrite lookup_insert_ne).
    rewrite (execute_command_bound other c') by done. simpl.
    by destruct (execute c' (world st)).
  - rewrite execute_command_unbound by (simpl; by rewrite lookup_insert_ne).
    by rewrite execute_command_unbound.
Qed.

End KeyFacts.

Lemma registration_leaves_other_keys_alone_witness :
  (register_command "bye" farewell ;;; execute_command "greet")
    (register_command "greet" greet (App_init 0%nat)).2 =
    (let (r, st') :=
       execute_command "greet" (register_command "greet" greet (App_init 0%nat)).2 in
     (r, {| commands := <["bye" := farewell]> (commands st');
            world := world st'; trace := trace st' |})).
Proof.
  apply (registration_leaves_other_keys_alone
           "bye" "greet" farewell
           (register_command "greet" greet (App_init 0%nat)).2).
  discriminate.
Defined.

(** A command that raises [SystemExit] ends the interpreter with its code. *)
Example command_can_end_interpreter :
  let st := (register_command "quit" quit (App_init 0%nat)).2 in
  (start_try [Line "quit"; Line "greet"] st).1 = Raise (SystemExit 3)
  /\ exit_status (start_try [Line "quit"; Line "greet"] st).1 = 3.
Proof. split; reflexivity. Qed.
